(** * The MCP agent: execution graph and interactive chat session

    A shallow embedding of [src/mcp_agent/agent.py], [src/mcp_agent/schema.py],
    [src/mcp_agent/mcp_client.py] and [interactive_chat.py].

    The Python objects ([Agent], [InteractiveChat]) are mutable and their
    methods may raise, so the methods are written in a state-and-exception
    monad over a store that holds both objects and a log of every call made
    to an external collaborator (tool registry, chat model, tool capability).
    A mutation made before an exception is raised stays in the store, as in
    Python. *)

From Stdlib Require Import String List ZArith Lia Bool.
Import ListNotations.
Open Scope string_scope.
Open Scope list_scope.

(** ** Messages and tools *)

(** A tool-call request carried by an assistant message. *)
Record ToolCall := mkToolCall {
  tc_name : string;
  tc_args : string;
  tc_id   : string
}.

(** [langchain_core.messages]: the three message classes the agent handles.
    Only [AIMessage] has a [tool_calls] attribute. *)
Inductive BaseMessage :=
| HumanMessage (content : string)
| AIMessage (content : string) (tool_calls : list ToolCall)
| ToolMessage (content : string) (tool_call_id : string).

Definition content (m : BaseMessage) : string :=
  match m with
  | HumanMessage c => c
  | AIMessage c _ => c
  | ToolMessage c _ => c
  end.

(** [hasattr(msg, 'tool_calls') and msg.tool_calls]: the attribute exists
    and is a non-empty list. *)
Definition has_tool_calls (m : BaseMessage) : bool :=
  match m with
  | AIMessage _ (_ :: _) => true
  | _ => false
  end.

(** The tool-call list of a message ([[]] when the class has none). *)
Definition tool_calls_of (m : BaseMessage) : list ToolCall :=
  match m with
  | AIMessage _ tcs => tcs
  | _ => []
  end.

(** [hasattr(msg, 'content') and msg.content]: a non-empty content. *)
Definition has_content (m : BaseMessage) : bool :=
  negb (content m =? "").

(** A tool descriptor as returned by the registry client. *)
Record Tool := mkTool {
  name : string;
  description : string
}.

Definition tool_eqb (a b : Tool) : bool :=
  (name a =? name b) && (description a =? description b).

Fixpoint tools_eqb (a b : list Tool) : bool :=
  match a, b with
  | [], [] => true
  | x :: a', y :: b' => tool_eqb x y && tools_eqb a' b'
  | _, _ => false
  end.

(** Python truthiness of [state.get("tools")]: [None] and [[]] are falsy. *)
Definition truthy_tools (tools : option (list Tool)) : bool :=
  match tools with
  | Some (_ :: _) => true
  | _ => false
  end.

(** [self._bound_tools != tools], with [tools] a list and [_bound_tools]
    either [None] or a list ([None != [...]] is [True]). *)
Definition bound_tools_differ (bound : option (list Tool)) (tools : list Tool) : bool :=
  match bound with
  | None => true
  | Some b => negb (tools_eqb b tools)
  end.

(** The chat model handle: the model built by [init_chat_model], or the
    result of [bind_tools] on a handle. *)
Inductive BaseChatModel :=
| init_chat_model (model_id : string)
| RunnableBinding (bound : BaseChatModel) (kwargs_tools : list Tool).

Definition bind_tools (m : BaseChatModel) (tools : list Tool) : BaseChatModel :=
  RunnableBinding m tools.

(** [True] on the handle the agent was constructed with, before any bind. *)
Definition is_unbound (m : BaseChatModel) : bool :=
  match m with
  | init_chat_model _ => true
  | RunnableBinding _ _ => false
  end.

(** ** Graph state and its reducers ([schema.py]) *)

Record AgentState := mkState {
  messages : list BaseMessage;
  tools : option (list Tool)
}.

(** A node may return one message or a list under the ["messages"] key. *)
Inductive MessagesValue :=
| OneMessage (m : BaseMessage)
| MessageList (l : list BaseMessage).

Definition as_list (v : MessagesValue) : list BaseMessage :=
  match v with
  | OneMessage m => [m]
  | MessageList l => l
  end.

(** Modelled from the spec: [add_messages] is imported from
    [langgraph.graph.message] and its body is not part of the sources; the
    definition follows the spec's [reduceMessages(existing, incoming) =
    existing ++ incoming], where the incoming value may be a single message
    or a sequence. *)
Definition add_messages (existing : list BaseMessage) (incoming : MessagesValue)
  : list BaseMessage :=
  existing ++ as_list incoming.

(** Modelled from the spec: [StateReducers.replace_tools] lives in
    [state_reducers.py], which [schema.py] imports and which is missing from
    the sources; the definition follows the spec's [reduceTools(existing,
    incoming) = incoming if incoming is non-null, else existing]. *)
Definition replace_tools (existing incoming : option (list Tool))
  : option (list Tool) :=
  match incoming with
  | Some _ => incoming
  | None => existing
  end.

(** The partial state dict a node returns: each key present or absent. *)
Record Update := mkUpdate {
  upd_messages : option MessagesValue;
  upd_tools : option (option (list Tool))
}.

(** The state-merge step: each returned key is folded in by its reducer. *)
Definition apply_update (s : AgentState) (u : Update) : AgentState :=
  {| messages := match upd_messages u with
                 | Some v => add_messages (messages s) v
                 | None => messages s
                 end;
     tools := match upd_tools u with
              | Some v => replace_tools (tools s) v
              | None => tools s
              end |}.

(** [state.get("messages")[-1]] when the list is non-empty. *)
Definition last_message (s : AgentState) : option BaseMessage :=
  match messages s with
  | [] => None
  | m :: l => Some (last l m)
  end.

(** ** Exceptions, external collaborators and the store *)

(** A Python exception, an instance of a subclass of [Exception]: its class
    name and [str(e)]. *)
Record PyException := mkExc {
  exc_class : string;
  exc_str : string
}.

(** The dispatcher [ToolNode(tools)], keyed by tool name. *)
Record ToolNode := mkToolNode {
  tools_by_name : list (string * Tool)
}.

Definition new_ToolNode (tools : list Tool) : ToolNode :=
  {| tools_by_name := map (fun t => (name t, t)) tools |}.

(** Every call that leaves the engine is logged, in order. *)
Inductive Event :=
| EvGetTools
| EvBindTools (tools : list Tool)
| EvModelInvoke (handle : BaseChatModel) (msgs : list BaseMessage)
| EvToolInvoke (call : ToolCall)
| EvGraphInvoke (input : Update).

(** The collaborators the engine treats as opaque.  Each answer may depend
    on the length of the log when the call is made, so a registry or a
    model may answer differently from one call to the next.
    [recursion_limit] is the graph runtime's bound on supersteps. *)
Record Collaborators := mkEnv {
  mcp_get_tools : nat -> PyException + list Tool;
  model_ainvoke : nat -> BaseChatModel -> list BaseMessage
                  -> PyException + (string * list ToolCall);
  tool_ainvoke : nat -> Tool -> ToolCall -> PyException + string;
  recursion_limit : nat
}.

(** The graph's wiring as [build_agent] declares it: node names, the entry
    point, plain edges, and conditional edges (a router and its path map). *)
Inductive NodeName := get_tools | call_model | execute_tools.

Inductive Dest :=
| Node (n : NodeName)
| END.

Record StateGraph := mkGraph {
  nodes : list NodeName;
  entry_point : option NodeName;
  edges : list (NodeName * Dest);
  conditional_edges : list (NodeName * ((AgentState -> Dest) * list (Dest * Dest)))
}.

(** The [Agent] object's attributes ([Agent.__init__]); [agent] is the
    compiled graph, [None] until [run] builds it. *)
Record Agent := mkAgent {
  model : BaseChatModel;
  agent : option StateGraph;
  _bound_tools : option (list Tool);
  _tool_node : option ToolNode
}.

(** The [InteractiveChat] object's attributes.  Its [agent] attribute is a
    reference to the one [Agent] object of the store. *)
Record InteractiveChat := mkChat {
  chat_history : list BaseMessage;
  max_history : Z;
  _agent_built : bool
}.

Record Store := mkStore {
  the_agent : Agent;
  the_chat : InteractiveChat;
  trace : list Event
}.

Definition new_Agent (m : BaseChatModel) : Agent :=
  {| model := m; agent := None; _bound_tools := None; _tool_node := None |}.

Definition new_InteractiveChat (max_hist : Z) : InteractiveChat :=
  {| chat_history := []; max_history := max_hist; _agent_built := false |}.

Definition new_Store (m : BaseChatModel) (max_hist : Z) : Store :=
  {| the_agent := new_Agent m; the_chat := new_InteractiveChat max_hist; trace := [] |}.

(** ** The state-and-exception monad *)

Definition M (A : Type) : Type := Store -> (PyException + A) * Store.

Definition ret {A} (a : A) : M A := fun st => (inr a, st).

Definition bind {A B} (c : M A) (k : A -> M B) : M B :=
  fun st =>
    match c st with
    | (inr a, st') => k a st'
    | (inl e, st') => (inl e, st')
    end.

Definition raise {A} (e : PyException) : M A := fun st => (inl e, st).

(** [try: body except Exception as e: handler(e)]. *)
Definition try_except {A} (body : M A) (handler : PyException -> M A) : M A :=
  fun st =>
    match body st with
    | (inl e, st') => handler e st'
    | r => r
    end.

Definition modify_agent (f : Agent -> Agent) : M unit :=
  fun st => (inr tt, {| the_agent := f (the_agent st);
                        the_chat := the_chat st;
                        trace := trace st |}).

Definition modify_chat (f : InteractiveChat -> InteractiveChat) : M unit :=
  fun st => (inr tt, {| the_agent := the_agent st;
                        the_chat := f (the_chat st);
                        trace := trace st |}).

Definition emit (ev : Event) : M unit :=
  fun st => (inr tt, {| the_agent := the_agent st;
                        the_chat := the_chat st;
                        trace := trace st ++ [ev] |}).

Declare Scope py_scope.
Delimit Scope py_scope with py.
Notation "x <- c ;; k" := (bind c (fun x => k))
  (at level 61, c at next level, right associativity) : py_scope.
Notation "c ;; k" := (bind c (fun _ => k))
  (at level 61, right associativity) : py_scope.
Open Scope py_scope.

Definition set_model (m : BaseChatModel) (a : Agent) : Agent :=
  {| model := m; agent := agent a;
     _bound_tools := _bound_tools a; _tool_node := _tool_node a |}.

Definition set_agent_graph (g : option StateGraph) (a : Agent) : Agent :=
  {| model := model a; agent := g;
     _bound_tools := _bound_tools a; _tool_node := _tool_node a |}.

Definition set_bound_tools (b : option (list Tool)) (a : Agent) : Agent :=
  {| model := model a; agent := agent a;
     _bound_tools := b; _tool_node := _tool_node a |}.

Definition set_tool_node (n : option ToolNode) (a : Agent) : Agent :=
  {| model := model a; agent := agent a;
     _bound_tools := _bound_tools a; _tool_node := n |}.

Definition set_chat_history (h : list BaseMessage) (c : InteractiveChat) : InteractiveChat :=
  {| chat_history := h; max_history := max_history c; _agent_built := _agent_built c |}.

Definition set_agent_built (b : bool) (c : InteractiveChat) : InteractiveChat :=
  {| chat_history := chat_history c; max_history := max_history c; _agent_built := b |}.

Definition get_agent : M Agent := fun st => (inr (the_agent st), st).
Definition get_chat : M InteractiveChat := fun st => (inr (the_chat st), st).

(** A logged external call; the collaborator is asked at the current
    position of the log. *)
Definition external {A} (ev : Event) (answer : nat -> PyException + A) : M A :=
  fun st => (answer (length (trace st)),
             {| the_agent := the_agent st;
                the_chat := the_chat st;
                trace := trace st ++ [ev] |}).

(** ** The agent ([agent.py]) *)

Section Engine.

Variable env : Collaborators.

(** [MCPClient.get_tools]: forwards to the multi-server client. *)
Definition MCPClient_get_tools : M (list Tool) :=
  external EvGetTools (mcp_get_tools env).

(** [Agent._get_tools]. *)
Definition _get_tools (state : AgentState) : M Update :=
  tools <- MCPClient_get_tools ;;
  ret {| upd_messages := None; upd_tools := Some (Some tools) |}.

(** [Agent._call_model]. *)
Definition _call_model (state : AgentState) : M Update :=
  match tools state with
  | Some (t :: rest) =>
      let tools := t :: rest in
      self <- get_agent ;;
      if bound_tools_differ (_bound_tools self) tools then
        emit (EvBindTools tools) ;;
        modify_agent (fun a => set_model (bind_tools (model a) tools) a) ;;
        modify_agent (set_bound_tools (Some tools)) ;;
        modify_agent (set_tool_node (Some (new_ToolNode tools)))
      else ret tt
  | _ => ret tt
  end ;;
  self <- get_agent ;;
  response <- external (EvModelInvoke (model self) (messages state))
                (fun now => model_ainvoke env now (model self) (messages state)) ;;
  ret {| upd_messages := Some (OneMessage (AIMessage (fst response) (snd response)));
         upd_tools := None |}.

Fixpoint lookup_tool (key : string) (table : list (string * Tool)) : option Tool :=
  match table with
  | [] => None
  | (k, t) :: rest => if k =? key then Some t else lookup_tool key rest
  end.

(** Modelled from the spec: [ToolNode] comes from [langgraph.prebuilt]; per
    the spec each requested call is resolved by name in the dispatcher and
    invoked, its result (or its error) becomes a tool message carrying the
    call's id, in request order. *)
Definition ToolNode_call (node : ToolNode) (call : ToolCall) : M BaseMessage :=
  match lookup_tool (tc_name call) (tools_by_name node) with
  | None =>
      ret (ToolMessage ("Error: " ++ tc_name call ++ " is not a valid tool") (tc_id call))
  | Some t =>
      try_except
        (out <- external (EvToolInvoke call) (fun now => tool_ainvoke env now t call) ;;
         ret (ToolMessage out (tc_id call)))
        (fun e => ret (ToolMessage ("Error: " ++ exc_str e) (tc_id call)))
  end.

Fixpoint ToolNode_calls (node : ToolNode) (calls : list ToolCall) : M (list BaseMessage) :=
  match calls with
  | [] => ret []
  | c :: rest =>
      m <- ToolNode_call node c ;;
      ms <- ToolNode_calls node rest ;;
      ret (m :: ms)
  end.

Definition ToolNode_ainvoke (node : ToolNode) (state : AgentState) : M (list BaseMessage) :=
  match last_message state with
  | Some m => ToolNode_calls node (tool_calls_of m)
  | None => raise {| exc_class := "ValueError"; exc_str := "No message found in input" |}
  end.

(** [Agent._execute_tools]. *)
Definition _execute_tools (state : AgentState) : M Update :=
  self <- get_agent ;;
  match _tool_node self with
  | None => ret {| upd_messages := Some (MessageList []); upd_tools := None |}
  | Some node =>
      match last_message state with
      | Some m =>
          if has_tool_calls m then
            tool_results <- ToolNode_ainvoke node state ;;
            ret {| upd_messages := Some (MessageList tool_results); upd_tools := None |}
          else ret {| upd_messages := Some (MessageList []); upd_tools := None |}
      | None => ret {| upd_messages := Some (MessageList []); upd_tools := None |}
      end
  end.

(** [Agent._should_continue]: the route key ["execute_tools"] or [END]. *)
Definition _should_continue (state : AgentState) : Dest :=
  match messages state with
  | [] => END
  | _ :: _ =>
      match last_message state with
      | Some m => if has_tool_calls m then Node execute_tools else END
      | None => END
      end
  end.

(** [Agent.build_agent]: the calls to [add_node], [set_entry_point],
    [add_edge] and [add_conditional_edges], in source order per kind. *)
Definition agent_flow : StateGraph :=
  {| nodes := [get_tools; call_model; execute_tools];
     entry_point := Some get_tools;
     edges := [ (get_tools, Node call_model);
                (execute_tools, Node call_model);
                (call_model, END) ];
     conditional_edges :=
       [ (call_model,
          (_should_continue,
           [ (Node execute_tools, Node execute_tools); (END, END) ])) ] |}.

Definition build_agent : M StateGraph := ret agent_flow.

(** The function each [add_node] call registers under a node name. *)
Definition node_action (n : NodeName) : AgentState -> M Update :=
  match n with
  | get_tools => _get_tools
  | call_model => _call_model
  | execute_tools => _execute_tools
  end.

(** ** The graph runtime

    Modelled from the spec: the executor of the compiled graph is
    LangGraph's and is not part of the sources.  As the spec has it, the
    graph runs one step at a time, the dict a node returns is merged into
    the state by the reducers, the edges leaving the node choose what runs
    next, and the run returns the accumulated state when nothing is left to
    run.  An edge to [END] schedules nothing, and the run raises
    [GraphRecursionError] after [recursion_limit] steps. *)

Definition node_eqb (a b : NodeName) : bool :=
  match a, b with
  | get_tools, get_tools => true
  | call_model, call_model => true
  | execute_tools, execute_tools => true
  | _, _ => false
  end.

Definition dest_eqb (a b : Dest) : bool :=
  match a, b with
  | END, END => true
  | Node x, Node y => node_eqb x y
  | _, _ => false
  end.

Definition dest_nodes (d : Dest) : list NodeName :=
  match d with
  | Node n => [n]
  | END => []
  end.

Fixpoint path_lookup (key : Dest) (path_map : list (Dest * Dest)) : option Dest :=
  match path_map with
  | [] => None
  | (k, d) :: rest => if dest_eqb k key then Some d else path_lookup key rest
  end.

(** Targets of the plain edges leaving [n]. *)
Definition edge_targets (g : StateGraph) (n : NodeName) : list NodeName :=
  flat_map (fun e => if node_eqb (fst e) n then dest_nodes (snd e) else []) (edges g).

(** Targets chosen by the routers attached to [n], read on the merged state. *)
Definition branch_targets (g : StateGraph) (n : NodeName) (s : AgentState) : list NodeName :=
  flat_map (fun b =>
              if node_eqb (fst b) n then
                match path_lookup (fst (snd b) s) (snd (snd b)) with
                | Some d => dest_nodes d
                | None => []
                end
              else [])
           (conditional_edges g).

Definition successors (g : StateGraph) (n : NodeName) (s : AgentState) : list NodeName :=
  edge_targets g n ++ branch_targets g n s.

Fixpoint dedup (l : list NodeName) : list NodeName :=
  match l with
  | [] => []
  | n :: rest => if existsb (node_eqb n) rest then dedup rest else n :: dedup rest
  end.

Definition next_active (g : StateGraph) (active : list NodeName) (s : AgentState)
  : list NodeName :=
  dedup (flat_map (fun n => successors g n s) active).

Fixpoint run_nodes (active : list NodeName) (s : AgentState) : M (list Update) :=
  match active with
  | [] => ret []
  | n :: rest =>
      u <- node_action n s ;;
      us <- run_nodes rest s ;;
      ret (u :: us)
  end.

Definition GraphRecursionError : PyException :=
  {| exc_class := "GraphRecursionError";
     exc_str := "Recursion limit reached without hitting a stop condition" |}.

Fixpoint pregel_loop (fuel : nat) (g : StateGraph) (active : list NodeName)
         (s : AgentState) : M AgentState :=
  match active with
  | [] => ret s
  | _ :: _ =>
      match fuel with
      | O => raise GraphRecursionError
      | S fuel' =>
          updates <- run_nodes active s ;;
          let s' := fold_left apply_update updates s in
          pregel_loop fuel' g (next_active g active s') s'
      end
  end.

Definition empty_state : AgentState := {| messages := []; tools := None |}.

(** [compiled.ainvoke(input)]: the input dict seeds a fresh state through
    the reducers, and the run starts at the entry point. *)
Definition ainvoke (g : StateGraph) (input : Update) : M AgentState :=
  emit (EvGraphInvoke input) ;;
  pregel_loop (recursion_limit env) g
              (match entry_point g with Some n => [n] | None => [] end)
              (apply_update empty_state input).

(** [Agent.run]. *)
Definition run (question : string) : M AgentState :=
  self <- get_agent ;;
  g <- match agent self with
       | None =>
           g <- build_agent ;;
           modify_agent (set_agent_graph (Some g)) ;;
           ret g
       | Some g => ret g
       end ;;
  ainvoke g {| upd_messages := Some (OneMessage (HumanMessage question));
               upd_tools := None |}.

(** ** The interactive chat session ([interactive_chat.py]) *)

(** [InteractiveChat._ensure_agent_built]: the built graph is discarded. *)
Definition _ensure_agent_built : M unit :=
  chat <- get_chat ;;
  if _agent_built chat then ret tt
  else
    _ <- build_agent ;;
    modify_chat (set_agent_built true).

(** The Python slice [l[start:]]: a negative [start] counts from the end,
    and both ends are clamped. *)
Definition slice_from {A} (l : list A) (start : Z) : list A :=
  let n := Z.of_nat (length l) in
  let i := if (start <? 0)%Z then Z.max (n + start) 0 else Z.min start n in
  skipn (Z.to_nat i) l.

(** [InteractiveChat._trim_history]. *)
Definition _trim_history : M unit :=
  chat <- get_chat ;;
  if (Z.of_nat (length (chat_history chat)) >? max_history chat)%Z then
    modify_chat (set_chat_history
                   (slice_from (chat_history chat) (- max_history chat)))
  else ret tt.

Definition append_history (m : BaseMessage) : M unit :=
  modify_chat (fun c => set_chat_history (chat_history c ++ [m]) c).

Definition apology : string :=
  "I apologize, but I couldn't generate a proper response.".

(** [InteractiveChat.send_message].  [messages_for_agent] is computed and
    never passed on, as in the source. *)
Definition send_message (message : string) : M string :=
  _ensure_agent_built ;;
  let user_message := HumanMessage message in
  append_history user_message ;;
  chat <- get_chat ;;
  let messages_for_agent := chat_history chat in
  try_except
    (response <- run message ;;
     match messages response with
     | [] => ret apology
     | _ :: _ =>
         match find has_content (rev (messages response)) with
         | Some ai_response =>
             append_history ai_response ;;
             _trim_history ;;
             ret (content ai_response)
         | None => ret apology
         end
     end)
    (fun e =>
       let error_msg := ("Error occurred: " ++ exc_str e)%string in
       let error_ai_msg := AIMessage error_msg [] in
       append_history error_ai_msg ;;
       ret error_msg).

(** [InteractiveChat.clear_history]. *)
Definition clear_history : M unit :=
  modify_chat (set_chat_history []).

End Engine.

(** ** Concrete collaborators, used to run the model on examples *)

Definition base_model : BaseChatModel :=
  init_chat_model "anthropic:claude-3-7-sonnet-latest".

Definition search_docs : Tool :=
  {| name := "search_docs"; description := "Search the documentation" |}.

Definition search_call : ToolCall :=
  {| tc_name := "search_docs"; tc_args := "q=X"; tc_id := "call_1" |}.

(** A registry with no tools and a model that answers ["4"]. *)
Definition env_no_tools : Collaborators :=
  {| mcp_get_tools := fun _ => inr [];
     model_ainvoke := fun _ _ _ => inr ("4", []);
     tool_ainvoke := fun _ _ _ => inr "found";
     recursion_limit := 25 |}.

Definition registry_unavailable : PyException :=
  {| exc_class := "ConnectionError"; exc_str := "no server responded" |}.

(** No configured server responds; the model would answer ["4"]. *)
Definition env_registry_down : Collaborators :=
  {| mcp_get_tools := fun _ => inl registry_unavailable;
     model_ainvoke := fun _ _ _ => inr ("4", []);
     tool_ainvoke := fun _ _ _ => inr "found";
     recursion_limit := 25 |}.

(** One tool; the model requests it once, then answers from its result. *)
Definition env_search : Collaborators :=
  {| mcp_get_tools := fun _ => inr [search_docs];
     model_ainvoke := fun _ _ msgs =>
       match last msgs (HumanMessage "") with
       | ToolMessage c _ => inr (("Here: " ++ c)%string, [])
       | _ => inr ("", [search_call])
       end;
     tool_ainvoke := fun _ _ _ => inr "found";
     recursion_limit := 25 |}.

(** The input dict [Agent.run] hands to the compiled graph. *)
Definition run_input (question : string) : Update :=
  {| upd_messages := Some (OneMessage (HumanMessage question)); upd_tools := None |}.

(** The store at the point where [send_message] enters its [try] block. *)
Definition turn_started (message : string) (st : Store) : Store :=
  {| the_agent := the_agent st;
     the_chat := {| chat_history := chat_history (the_chat st) ++ [HumanMessage message];
                    max_history := max_history (the_chat st);
                    _agent_built := true |};
     trace := trace st |}.

(** The agent's graph attribute is unset or holds what [build_agent] built. *)
Definition graph_of_build_agent (a : Agent) : Prop :=
  agent a = None \/ agent a = Some agent_flow.

(** A session after one completed turn (["hi"] answered by ["4"]). *)
Definition after_first_turn : Store :=
  snd (send_message env_no_tools "hi" (new_Store base_model 50)).

(** The store with the session's history replaced. *)
Definition with_history (h : list BaseMessage) (st : Store) : Store :=
  {| the_agent := the_agent st;
     the_chat := set_chat_history h (the_chat st);
     trace := trace st |}.

(** The history [_trim_history] leaves, as a function of the history it
    finds and of [max_history]. *)
Definition trimmed (h : list BaseMessage) (max_hist : Z) : list BaseMessage :=
  if (Z.of_nat (length h) >? max_hist)%Z then slice_from h (- max_hist) else h.

(** What [send_message] makes of the outcome of [Agent.run]: the [try]
    block's continuation and the [except] handler, as one function. *)
Definition send_outcome (message : string) (r : (PyException + AgentState) * Store)
  : (PyException + string) * Store :=
  match r with
  | (inl e, st1) =>
      let error_msg := ("Error occurred: " ++ exc_str e)%string in
      (inr error_msg,
       with_history (chat_history (the_chat st1) ++ [AIMessage error_msg []]) st1)
  | (inr response, st1) =>
      match find has_content (rev (messages response)) with
      | Some ai_response =>
          (inr (content ai_response),
           with_history (trimmed (chat_history (the_chat st1) ++ [ai_response])
                                 (max_history (the_chat st1))) st1)
      | None => (inr apology, st1)
      end
  end.

(** The agent after the rebinding branch of [_call_model] has run on
    [tools]: lines 29 to 31 of [agent.py]. *)
Definition rebound (tools : list Tool) (a : Agent) : Agent :=
  {| model := bind_tools (model a) tools;
     agent := agent a;
     _bound_tools := Some tools;
     _tool_node := Some (new_ToolNode tools) |}.

(** A graph state that carries the one-tool registry snapshot. *)
Definition state_with_search : AgentState :=
  {| messages := [HumanMessage "docs for X"]; tools := Some [search_docs] |}.

(** The store after a first [call_model] step on that state. *)
Definition after_first_bind : Store :=
  snd (_call_model env_search state_with_search (new_Store base_model 50)).

(** The store when the compiled graph starts running for [question]: the
    graph attribute is set and the invocation is logged. *)
Definition graph_started (question : string) (st : Store) : Store :=
  {| the_agent := set_agent_graph (Some agent_flow) (the_agent st);
     the_chat := the_chat st;
     trace := trace st ++ [EvGraphInvoke (run_input question)] |}.

(** The registry's answer to the [get_tools] call of a run started in
    [st]: the call is made right after the graph invocation is logged. *)
Definition registry_answer (env : Collaborators) (st : Store)
  : PyException + list Tool :=
  mcp_get_tools env (S (length (trace st))).

(** Code of [agent.py] never touches the session object, and only ever
    appends to the log of external calls: [agent_step st st'] relates a
    store to a later one that differs at most in that way. *)
Definition agent_step (st st' : Store) : Prop :=
  the_chat st' = the_chat st /\ exists evs, trace st' = trace st ++ evs.

Definition frames {A} (c : M A) : Prop :=
  forall st, agent_step st (snd (c st)).

(** ** Read-outs of the session ([interactive_chat.py]) *)

(** A Python dict with string keys and values, in insertion order. *)
Definition PyDict : Type := list (string * string).

(** One iteration of the loop of [get_chat_history]: human and assistant
    messages append an entry, any other message appends nothing. *)
Definition history_step (history : list PyDict) (message : BaseMessage)
  : list PyDict :=
  match message with
  | HumanMessage c => history ++ [[("role", "user"); ("content", c)]]
  | AIMessage c _ => history ++ [[("role", "assistant"); ("content", c)]]
  | ToolMessage _ _ => history
  end.

(** [InteractiveChat.get_chat_history]. *)
Definition get_chat_history : M (list PyDict) :=
  chat <- get_chat ;;
  ret (fold_left history_step (chat_history chat) []).

(** Python truthiness of a variable that holds [None] or a string. *)
Definition truthy_str (v : option string) : bool :=
  match v with
  | Some s => negb (s =? "")
  | None => false
  end.

(** The two assignments in the loop body of [get_last_exchange], on the
    pair [(last_ai, last_user)]: an [if] and its [elif]. *)
Definition exchange_step (message : BaseMessage) (vars : option string * option string)
  : option string * option string :=
  let (last_ai, last_user) := vars in
  match message, last_ai with
  | AIMessage c _, None => (Some c, last_user)
  | _, _ =>
      match message, last_user with
      | HumanMessage c, None => (last_ai, Some c)
      | _, _ => (last_ai, last_user)
      end
  end.

(** The loop of [get_last_exchange] over the reversed history, with its
    [break] once both variables are truthy. *)
Fixpoint exchange_loop (msgs : list BaseMessage) (vars : option string * option string)
  : option string * option string :=
  match msgs with
  | [] => vars
  | message :: rest =>
      let vars' := exchange_step message vars in
      if truthy_str (fst vars') && truthy_str (snd vars') then vars'
      else exchange_loop rest vars'
  end.

(** [InteractiveChat.get_last_exchange]. *)
Definition get_last_exchange : M (option PyDict) :=
  chat <- get_chat ;;
  if Nat.ltb (length (chat_history chat)) 2 then ret None
  else
    let vars := exchange_loop (rev (chat_history chat)) (None, None) in
    match vars with
    | (Some last_ai, Some last_user) =>
        if truthy_str (fst vars) && truthy_str (snd vars) then
          ret (Some [("user", last_user); ("assistant", last_ai)])
        else ret None
    | _ => ret None
    end.

Definition is_ai (m : BaseMessage) : bool :=
  match m with
  | AIMessage _ _ => true
  | _ => false
  end.

Definition is_human (m : BaseMessage) : bool :=
  match m with
  | HumanMessage _ => true
  | _ => false
  end.

(** The entry [get_chat_history] reports for a human or assistant message. *)
Definition entry_of (m : BaseMessage) : PyDict :=
  [("role", if is_human m then "user" else "assistant"); ("content", content m)].

(** The last exchange read by two independent backward scans: the most
    recent assistant message and the most recent human message, reported
    when the history has two entries or more and both contents are
    non-empty. *)
Definition last_exchange_of (h : list BaseMessage) : option PyDict :=
  if Nat.ltb (length h) 2 then None
  else
    match find is_ai (rev h), find is_human (rev h) with
    | Some a, Some u =>
        if has_content a && has_content u then
          Some [("user", content u); ("assistant", content a)]
        else None
    | _, _ => None
    end.

(** A store whose history is longer than its bound of two. *)
Definition crowded_store : Store :=
  with_history [HumanMessage "a"; AIMessage "b" []; HumanMessage "c"; AIMessage "d" []]
               (new_Store base_model 2).

(** A store with a negative [max_history]. *)
Definition negative_bound_store : Store :=
  with_history [HumanMessage "a"; AIMessage "b" []; HumanMessage "c"]
               (new_Store base_model (-1)).

(** The model answers with empty content and no tool call. *)
Definition env_silent : Collaborators :=
  {| mcp_get_tools := fun _ => inr [];
     model_ainvoke := fun _ _ _ => inr ("", []);
     tool_ainvoke := fun _ _ _ => inr "found";
     recursion_limit := 25 |}.

(** A variable of the loop of [get_last_exchange] after a scan: kept when
    already set, else the content of the message the scan found. *)
Definition or_else (v : option string) (found : option BaseMessage) : option string :=
  match v with
  | Some _ => v
  | None => option_map content found
  end.



(** The binding attributes of the agent agree with one another: either
    nothing was ever bound and the handle is the one the agent was built
    with, or a non-empty tool set is recorded, the dispatcher is the one
    built from it and the handle is a binding of that same tool set. *)
Definition binding_consistent (original : BaseChatModel) (a : Agent) : Prop :=
  (_bound_tools a = None /\ _tool_node a = None /\ model a = original)
  \/ (exists ts inner,
        ts <> [] /\ _bound_tools a = Some ts
        /\ _tool_node a = Some (new_ToolNode ts)
        /\ model a = bind_tools inner ts).

Definition agent_invariant (original : BaseChatModel) (st : Store) : Prop :=
  graph_of_build_agent (the_agent st) /\ binding_consistent original (the_agent st).

(** The store after [send_message] was called on each message in turn. *)
Definition send_all (env : Collaborators) (msgs : list string) (st : Store) : Store :=
  fold_left (fun st message => snd (send_message env message st)) msgs st.

(** Events of a run other than its start and its registry call. *)
Definition model_or_tool_event (ev : Event) : Prop :=
  match ev with
  | EvGetTools | EvGraphInvoke _ => False
  | _ => True
  end.

(** [later_in_run st st']: from [st] to [st'] the session is untouched and
    the log gained only bind, model and tool events. *)
Definition later_in_run (st st' : Store) : Prop :=
  the_chat st' = the_chat st
  /\ exists evs, trace st' = trace st ++ evs /\ Forall model_or_tool_event evs.

(** [agent_kept st st']: as [later_in_run], and the agent is untouched. *)
Definition agent_kept (st st' : Store) : Prop :=
  the_agent st' = the_agent st /\ later_in_run st st'.

(** The store with the session object replaced. *)
Definition with_chat (chat : InteractiveChat) (st : Store) : Store :=
  {| the_agent := the_agent st; the_chat := chat; trace := trace st |}.

(** A computation that neither reads nor writes the session object. *)
Definition chat_blind {A} (c : M A) : Prop :=
  forall chat st, c (with_chat chat st) = (fst (c st), with_chat chat (snd (c st))).


(** * Properties *)

(** ** Reducers *)

(** C5: the messages reducer is list concatenation: merging an empty list
    changes nothing, the length of a merge is the sum of the lengths, and
    the incoming messages follow the existing ones in their own order, none
    dropped, reordered or merged. *)
Theorem add_messages_is_concatenation (A B : list BaseMessage) :
  add_messages A (MessageList []) = A
  /\ length (add_messages A (MessageList B)) = length A + length B
  /\ add_messages A (MessageList B) = A ++ B
  /\ (forall m, add_messages A (OneMessage m) = A ++ [m]).
Proof.
  unfold add_messages; cbn [as_list].
  repeat split.
  - apply app_nil_r.
  - apply length_app.
Qed.

(** C6: the tools reducer keeps the existing value on a null update and is
    replaced wholesale by any non-null one. *)
Theorem replace_tools_replace_or_keep (A : option (list Tool)) :
  replace_tools A None = A
  /\ (forall B : list Tool, replace_tools A (Some B) = Some B).
Proof. split; reflexivity. Qed.

(** ** Framing: what the agent's code may touch *)

Lemma agent_step_refl st : agent_step st st.
Proof. split; [reflexivity | exists []; now rewrite app_nil_r]. Qed.

Lemma agent_step_trans st1 st2 st3 :
  agent_step st1 st2 -> agent_step st2 st3 -> agent_step st1 st3.
Proof.
  intros [Hc1 [e1 Ht1]] [Hc2 [e2 Ht2]]. split.
  - congruence.
  - exists (e1 ++ e2). rewrite Ht2, Ht1. now rewrite app_assoc.
Qed.

Lemma frames_ret {A} (a : A) : frames (ret a).
Proof. intros st. apply agent_step_refl. Qed.

Lemma frames_raise {A} e : frames (@raise A e).
Proof. intros st. apply agent_step_refl. Qed.

Lemma frames_bind {A B} (c : M A) (k : A -> M B) :
  frames c -> (forall a, frames (k a)) -> frames (bind c k).
Proof.
  intros Hc Hk st. unfold bind.
  specialize (Hc st). destruct (c st) as [[e | a] st1]; cbn [snd] in *.
  - exact Hc.
  - eapply agent_step_trans; [exact Hc | apply Hk].
Qed.

Lemma frames_try_except {A} (body : M A) handler :
  frames body -> (forall e, frames (handler e)) -> frames (try_except body handler).
Proof.
  intros Hb Hh st. unfold try_except.
  specialize (Hb st). destruct (body st) as [[e | a] st1]; cbn [snd] in *.
  - eapply agent_step_trans; [exact Hb | apply Hh].
  - exact Hb.
Qed.

Lemma frames_get_agent : frames get_agent.
Proof. intros st. apply agent_step_refl. Qed.

Lemma frames_modify_agent f : frames (modify_agent f).
Proof. intros st. split; [reflexivity | exists []; cbn; now rewrite app_nil_r]. Qed.

Lemma frames_emit ev : frames (emit ev).
Proof. intros st. split; [reflexivity | now exists [ev]]. Qed.

Lemma frames_external {A} ev (answer : nat -> PyException + A) :
  frames (external ev answer).
Proof. intros st. split; [reflexivity | now exists [ev]]. Qed.

Create HintDb frames.
#[local] Hint Resolve frames_ret frames_raise frames_get_agent frames_modify_agent
  frames_emit frames_external : frames.

Ltac frame_step :=
  first [ apply frames_bind; [ | intros ? ]
        | apply frames_try_except; [ | intros ? ]
        | solve [ auto with frames ] ].

Section EngineFrames.

Variable env : Collaborators.

Lemma frames_get_tools s : frames (_get_tools env s).
Proof. unfold _get_tools, MCPClient_get_tools. repeat frame_step. Qed.

Lemma frames_call_model s : frames (_call_model env s).
Proof.
  unfold _call_model.
  apply frames_bind; [ | intros ?; repeat frame_step ].
  destruct (tools s) as [[ | t rest] | ]; try solve [repeat frame_step].
  apply frames_bind; [ auto with frames | intros self ].
  destruct (bound_tools_differ _ _); repeat frame_step.
Qed.

Lemma frames_ToolNode_call node c : frames (ToolNode_call env node c).
Proof.
  unfold ToolNode_call. destruct (lookup_tool _ _); repeat frame_step.
Qed.

Lemma frames_ToolNode_calls node calls : frames (ToolNode_calls env node calls).
Proof.
  induction calls as [ | c rest IH]; cbn [ToolNode_calls].
  - auto with frames.
  - apply frames_bind; [apply frames_ToolNode_call | intros m].
    apply frames_bind; [exact IH | intros ms; auto with frames].
Qed.

Lemma frames_execute_tools s : frames (_execute_tools env s).
Proof.
  unfold _execute_tools.
  apply frames_bind; [ auto with frames | intros self ].
  destruct (_tool_node self) as [node | ]; [ | auto with frames ].
  destruct (last_message s) as [m | ] eqn:Hlast; [ | auto with frames ].
  destruct (has_tool_calls m); [ | auto with frames ].
  apply frames_bind; [ | intros ?; auto with frames ].
  unfold ToolNode_ainvoke. rewrite Hlast. apply frames_ToolNode_calls.
Qed.

Lemma frames_node_action n s : frames (node_action env n s).
Proof.
  destruct n; cbn [node_action];
    [ apply frames_get_tools | apply frames_call_model | apply frames_execute_tools ].
Qed.

Lemma frames_run_nodes active s : frames (run_nodes env active s).
Proof.
  induction active as [ | n rest IH]; cbn [run_nodes].
  - auto with frames.
  - apply frames_bind; [apply frames_node_action | intros u].
    apply frames_bind; [exact IH | intros us; auto with frames].
Qed.

Lemma frames_pregel_loop fuel g : forall active s,
  frames (pregel_loop env fuel g active s).
Proof.
  induction fuel as [ | fuel IH]; intros [ | n rest] s; cbn [pregel_loop];
    auto with frames.
  apply frames_bind; [apply frames_run_nodes | intros updates; apply IH].
Qed.

Lemma frames_ainvoke g input : frames (ainvoke env g input).
Proof.
  unfold ainvoke. apply frames_bind; [auto with frames | intros _].
  apply frames_pregel_loop.
Qed.

Lemma frames_run question : frames (run env question).
Proof.
  unfold run. apply frames_bind; [auto with frames | intros self].
  apply frames_bind; [ | intros g; apply frames_ainvoke ].
  destruct (agent self); unfold build_agent; repeat frame_step.
Qed.

End EngineFrames.

(** ** Unfolding the session's methods *)

Lemma bind_eq {A B} (c : M A) (k : A -> M B) st :
  bind c k st =
  match c st with
  | (inr a, st') => k a st'
  | (inl e, st') => (inl e, st')
  end.
Proof. reflexivity. Qed.

Lemma with_history_same st : with_history (chat_history (the_chat st)) st = st.
Proof. destruct st as [a [h m b] t]. reflexivity. Qed.

Lemma trim_history_eq st :
  _trim_history st =
  (inr tt, with_history (trimmed (chat_history (the_chat st))
                                 (max_history (the_chat st))) st).
Proof.
  unfold _trim_history, trimmed, bind, get_chat.
  destruct (Z.of_nat _ >? _)%Z.
  - reflexivity.
  - unfold ret. now rewrite with_history_same.
Qed.

Lemma ensure_agent_built_eq st :
  _ensure_agent_built st
  = (inr tt, {| the_agent := the_agent st;
                the_chat := set_agent_built true (the_chat st);
                trace := trace st |}).
Proof.
  unfold _ensure_agent_built, build_agent. rewrite bind_eq. unfold get_chat.
  destruct st as [a [h m b] t]; destruct b; reflexivity.
Qed.

(** [send_message] is [Agent.run] on the store where the user message has
    been appended, followed by [send_outcome]. *)
Lemma send_message_eq env message st :
  send_message env message st
  = send_outcome message (run env message (turn_started message st)).
Proof.
  unfold send_message.
  rewrite bind_eq, ensure_agent_built_eq.
  cbv zeta. rewrite bind_eq. unfold append_history at 1, modify_chat at 1.
  rewrite bind_eq. unfold get_chat at 1.
  unfold try_except. rewrite bind_eq.
  change {| the_agent := _; the_chat := _; trace := _ |} with (turn_started message st).
  destruct (run env message (turn_started message st)) as [[e | response] st1];
    unfold send_outcome.
  - reflexivity.
  - destruct (messages response) as [ | m0 rest] eqn:Hm.
    + reflexivity.
    + destruct (find has_content (rev (m0 :: rest))) as [ai | ].
      * rewrite bind_eq. unfold append_history, modify_chat.
        rewrite bind_eq, trim_history_eq. reflexivity.
      * reflexivity.
Qed.

(** ** History trimming *)

Section Trimming.

Variables (h : list BaseMessage) (max_hist : Z).

(** With a positive bound, the trimmed history fits the bound. *)
Lemma trimmed_length :
  (1 <= max_hist)%Z -> (Z.of_nat (length (trimmed h max_hist)) <= max_hist)%Z.
Proof.
  intros Hpos. unfold trimmed, slice_from.
  destruct (Z.gtb_spec (Z.of_nat (length h)) max_hist) as [Hgt | Hle]; [ | lia ].
  destruct (Z.ltb_spec (- max_hist) 0) as [_ | Hneg]; [ | lia ].
  rewrite length_skipn. lia.
Qed.

(** Trimming only drops a prefix: what is kept is a suffix of the history,
    in its original order. *)
Lemma trimmed_suffix :
  exists dropped, h = dropped ++ trimmed h max_hist.
Proof.
  unfold trimmed. destruct (_ >? _)%Z.
  - unfold slice_from.
    exists (firstn (Z.to_nat (if (- max_hist <? 0)%Z
                              then Z.max (Z.of_nat (length h) + - max_hist) 0
                              else Z.min (- max_hist) (Z.of_nat (length h)))) h).
    symmetry. apply firstn_skipn.
  - now exists [].
Qed.

(** With a positive bound, exactly the most recent [max_hist] entries stay
    when the history is too long. *)
Lemma trimmed_keeps_most_recent :
  (1 <= max_hist)%Z -> (max_hist < Z.of_nat (length h))%Z ->
  trimmed h max_hist = skipn (length h - Z.to_nat max_hist) h.
Proof.
  intros Hpos Hlong. unfold trimmed, slice_from.
  destruct (Z.gtb_spec (Z.of_nat (length h)) max_hist) as [_ | Hle]; [ | lia ].
  destruct (Z.ltb_spec (- max_hist) 0) as [_ | Hneg]; [ | lia ].
  f_equal. lia.
Qed.

End Trimming.

(** With [max_history = 0] the slice is [h[-0:]], the whole list. *)
Lemma trimmed_zero (h : list BaseMessage) : trimmed h 0 = h.
Proof.
  unfold trimmed, slice_from.
  destruct (Z.of_nat (length h) >? 0)%Z; [ | reflexivity ].
  change (- 0 <? 0)%Z with false. cbv iota.
  replace (Z.min (- 0) (Z.of_nat (length h))) with 0%Z by lia.
  reflexivity.
Qed.

(** ** The session *)

(** A turn whose run succeeds with a reply leaves a history that fits a
    positive [max_history]. *)
Lemma send_message_history_bound env message st response st1 ai :
  (1 <= max_history (the_chat st))%Z ->
  run env message (turn_started message st) = (inr response, st1) ->
  find has_content (rev (messages response)) = Some ai ->
  (Z.of_nat (length (chat_history (the_chat (snd (send_message env message st)))))
   <= max_history (the_chat st))%Z.
Proof.
  intros Hpos Hrun Hai.
  rewrite send_message_eq, Hrun. unfold send_outcome. rewrite Hai. cbn [snd].
  pose proof (frames_run env message (turn_started message st)) as [Hchat _].
  rewrite Hrun in Hchat. cbn [snd] in Hchat. rewrite Hchat.
  cbn [with_history the_chat set_chat_history chat_history turn_started max_history].
  now apply trimmed_length.
Qed.

(** C4, at [max_history = 0]: the turn reaches its trimming step with two
    messages in the history and both are still there afterwards, although
    the bound is zero. *)
Theorem zero_max_history_keeps_every_message :
  fst (send_message env_no_tools "2+2?" (new_Store base_model 0)) = inr "4"
  /\ max_history (the_chat (snd (send_message env_no_tools "2+2?" (new_Store base_model 0))))
     = 0%Z
  /\ chat_history (the_chat (snd (send_message env_no_tools "2+2?" (new_Store base_model 0))))
     = [HumanMessage "2+2?"; AIMessage "4" []]
  /\ trimmed [HumanMessage "2+2?"; AIMessage "4" []] 0
     = [HumanMessage "2+2?"; AIMessage "4" []].
Proof. repeat split. Qed.

(** A turn that ends in the [except] branch appends two messages and never
    reaches [_trim_history]. *)
Lemma error_turn_skips_trimming :
  chat_history
    (the_chat (snd (send_message env_registry_down "2+2?" (new_Store base_model 1))))
  = [HumanMessage "2+2?"; AIMessage "Error occurred: no server responded" []].
Proof. reflexivity. Qed.

(** C10: [send_message] always returns text, never an exception; when the
    graph invocation raises [e], the reply is the text of a synthetic
    assistant message built from [e], and that message is appended to the
    history right after the user message. *)
Theorem send_message_absorbs_errors env message st :
  (exists text st', send_message env message st = (inr text, st'))
  /\ (forall e st1,
        run env message (turn_started message st) = (inl e, st1) ->
        fst (send_message env message st)
        = inr ("Error occurred: " ++ exc_str e)%string
        /\ chat_history (the_chat (snd (send_message env message st)))
           = chat_history (the_chat st)
               ++ [HumanMessage message;
                   AIMessage ("Error occurred: " ++ exc_str e)%string []]).
Proof.
  rewrite send_message_eq. split.
  - destruct (run env message (turn_started message st)) as [[e | response] st1];
      unfold send_outcome.
    + eauto.
    + destruct (find has_content (rev (messages response))); eauto.
  - intros e st1 Hrun.
    pose proof (frames_run env message (turn_started message st)) as [Hchat _].
    rewrite Hrun in *. cbn [snd] in Hchat.
    unfold send_outcome. cbn [fst snd]. split; [reflexivity | ].
    cbn [with_history the_chat set_chat_history chat_history].
    rewrite Hchat. cbn [turn_started the_chat chat_history].
    now rewrite <- app_assoc.
Qed.

Lemma send_message_absorbs_errors_witness :
  fst (send_message env_registry_down "2+2?" (new_Store base_model 50))
  = inr "Error occurred: no server responded"
  /\ chat_history
       (the_chat (snd (send_message env_registry_down "2+2?" (new_Store base_model 50))))
     = [HumanMessage "2+2?"; AIMessage "Error occurred: no server responded" []].
Proof.
  exact (proj2 (send_message_absorbs_errors env_registry_down "2+2?"
                  (new_Store base_model 50))
               registry_unavailable
               (snd (run env_registry_down "2+2?"
                       (turn_started "2+2?" (new_Store base_model 50))))
               eq_refl).
Defined.

(** ** The graph run *)

Lemma set_agent_graph_same a : set_agent_graph (agent a) a = a.
Proof. now destruct a. Qed.

(** [Agent.run] starts the loop at [get_tools] on a state seeded with the
    question alone, whatever the session's history holds. *)
Lemma run_eq env question st :
  graph_of_build_agent (the_agent st) ->
  run env question st
  = pregel_loop env (recursion_limit env) agent_flow [get_tools]
      {| messages := [HumanMessage question]; tools := None |}
      (graph_started question st).
Proof.
  intros Hg. unfold run. rewrite bind_eq. unfold get_agent at 1.
  rewrite bind_eq.
  assert (Hbuilt :
    match agent (the_agent st) with
    | Some g => ret g
    | None => g <- build_agent ;; modify_agent (set_agent_graph (Some g)) ;; ret g
    end st
    = (inr agent_flow,
       {| the_agent := set_agent_graph (Some agent_flow) (the_agent st);
          the_chat := the_chat st; trace := trace st |})).
  { destruct Hg as [Hg | Hg]; rewrite Hg.
    - reflexivity.
    - unfold ret. rewrite <- Hg, set_agent_graph_same. now destruct st. }
  rewrite Hbuilt. reflexivity.
Qed.

(** One superstep with a single active node. *)
Lemma pregel_loop_step env fuel g n s st :
  pregel_loop env (S fuel) g [n] s st
  = match node_action env n s st with
    | (inr u, st') =>
        pregel_loop env fuel g (next_active g [n] (apply_update s u))
                    (apply_update s u) st'
    | (inl e, st') => (inl e, st')
    end.
Proof.
  cbn [pregel_loop run_nodes]. rewrite !bind_eq.
  destruct (node_action env n s st) as [[e | u] st']; reflexivity.
Qed.

(** When the registry raises, so does the [get_tools] node. *)
Lemma get_tools_raises env s st e :
  mcp_get_tools env (length (trace st)) = inl e ->
  _get_tools env s st
  = (inl e, {| the_agent := the_agent st; the_chat := the_chat st;
               trace := trace st ++ [EvGetTools] |}).
Proof.
  intros Hfail. unfold _get_tools, MCPClient_get_tools, external.
  rewrite bind_eq, Hfail. reflexivity.
Qed.

(** C1, on the second turn of a session: the history holds the first
    exchange, yet the graph is invoked with the new user message alone and
    the model is shown that single message. *)
Theorem second_turn_seed_is_new_message_only :
  chat_history (the_chat after_first_turn) = [HumanMessage "hi"; AIMessage "4" []]
  /\ skipn (length (trace after_first_turn))
           (trace (snd (send_message env_no_tools "again" after_first_turn)))
     = [ EvGraphInvoke {| upd_messages := Some (OneMessage (HumanMessage "again"));
                          upd_tools := None |};
         EvGetTools;
         EvModelInvoke base_model [HumanMessage "again"] ]
  /\ chat_history (the_chat (snd (send_message env_no_tools "again" after_first_turn)))
     = [HumanMessage "hi"; AIMessage "4" []; HumanMessage "again"; AIMessage "4" []].
Proof. repeat split. Qed.

(** C2, with a registry where no server responds: the run raises at
    [get_tools], returns no state, and the model is never invoked. *)
Lemma registry_down_aborts_run :
  fst (run env_registry_down "2+2?" (new_Store base_model 50))
  = inl registry_unavailable
  /\ trace (snd (run env_registry_down "2+2?" (new_Store base_model 50)))
     = [EvGraphInvoke (run_input "2+2?"); EvGetTools].
Proof. split; reflexivity. Qed.

(** C2, amended: when the registry call of a turn raises [e], the run
    raises [e] at the [get_tools] node, before the model is invoked; the
    session catches it, replies with the error text and records it as a
    synthetic assistant message. *)
Theorem registry_failure_aborts_run env message st e :
  graph_of_build_agent (the_agent st) ->
  0 < recursion_limit env ->
  registry_answer env st = inl e ->
  fst (run env message (turn_started message st)) = inl e
  /\ trace (snd (run env message (turn_started message st)))
     = trace st ++ [EvGraphInvoke (run_input message); EvGetTools]
  /\ fst (send_message env message st) = inr ("Error occurred: " ++ exc_str e)%string
  /\ trace (snd (send_message env message st))
     = trace st ++ [EvGraphInvoke (run_input message); EvGetTools]
  /\ chat_history (the_chat (snd (send_message env message st)))
     = chat_history (the_chat st)
         ++ [HumanMessage message;
             AIMessage ("Error occurred: " ++ exc_str e)%string []].
Proof.
  intros Hg Hfuel Hfail.
  assert (Hrun : run env message (turn_started message st)
                 = (inl e,
                    {| the_agent := set_agent_graph (Some agent_flow) (the_agent st);
                       the_chat := the_chat (turn_started message st);
                       trace := trace st ++ [EvGraphInvoke (run_input message); EvGetTools] |})).
  { rewrite run_eq by exact Hg.
    destruct (recursion_limit env) as [ | fuel]; [lia | ].
    rewrite pregel_loop_step. cbn [node_action].
    rewrite (get_tools_raises env _ _ e).
    - cbn [graph_started the_agent the_chat trace turn_started].
      now rewrite <- app_assoc.
    - cbn [graph_started trace turn_started]. rewrite length_app, Nat.add_1_r.
      exact Hfail. }
  rewrite send_message_eq, Hrun. unfold send_outcome. cbn [fst snd].
  repeat split.
  cbn [with_history the_chat set_chat_history chat_history turn_started].
  now rewrite <- app_assoc.
Qed.

Lemma registry_failure_aborts_run_witness :
  fst (send_message env_registry_down "2+2?" (new_Store base_model 50))
  = inr "Error occurred: no server responded"
  /\ trace (snd (send_message env_registry_down "2+2?" (new_Store base_model 50)))
     = [EvGraphInvoke (run_input "2+2?"); EvGetTools].
Proof.
  pose proof (registry_failure_aborts_run env_registry_down "2+2?"
                (new_Store base_model 50) registry_unavailable
                (or_introl eq_refl) (Nat.lt_0_succ 24) eq_refl)
    as (_ & _ & Hreply & Htrace & _).
  exact (conj Hreply Htrace).
Defined.

(** ** The model-binding step *)

Lemma tool_eqb_refl t : tool_eqb t t = true.
Proof. unfold tool_eqb. now rewrite !String.eqb_refl. Qed.

Lemma tools_eqb_refl ts : tools_eqb ts ts = true.
Proof.
  induction ts as [ | t ts IH]; [reflexivity | ].
  cbn [tools_eqb]. now rewrite tool_eqb_refl, IH.
Qed.



Lemma call_model_rebinds env s st ts :
  tools s = Some ts -> ts <> [] ->
  bound_tools_differ (_bound_tools (the_agent st)) ts = true ->
  snd (_call_model env s st)
  = {| the_agent := rebound ts (the_agent st);
       the_chat := the_chat st;
       trace := trace st
                ++ [EvBindTools ts;
                    EvModelInvoke (bind_tools (model (the_agent st)) ts) (messages s)] |}.
Proof.
  intros Ht Hne Hdiff. unfold _call_model. rewrite Ht.
  destruct ts as [ | t rest]; [congruence | ].
  cbv beta iota zeta. rewrite !bind_eq. unfold get_agent at 1.
  cbv beta iota. rewrite Hdiff.
  unfold emit, modify_agent, get_agent, external, ret. rewrite !bind_eq.
  cbn [the_agent the_chat trace set_model set_bound_tools set_tool_node
       model agent _bound_tools _tool_node].
  rewrite <- app_assoc.
  destruct (model_ainvoke env _ _ _); reflexivity.
Qed.

Lemma call_model_keeps_binding env s st :
  (forall ts, tools s = Some ts -> ts <> [] ->
              bound_tools_differ (_bound_tools (the_agent st)) ts = false) ->
  snd (_call_model env s st)
  = {| the_agent := the_agent st;
       the_chat := the_chat st;
       trace := trace st ++ [EvModelInvoke (model (the_agent st)) (messages s)] |}.
Proof.
  intros Hsame. unfold _call_model. rewrite bind_eq.
  destruct (tools s) as [[ | t rest] | ] eqn:Ht; cbv beta iota zeta.
  2: { rewrite bind_eq. unfold get_agent at 1. cbv beta iota.
       rewrite (Hsame (t :: rest) eq_refl) by discriminate.
       unfold get_agent, external, ret. rewrite !bind_eq.
       destruct (model_ainvoke env _ _ _); reflexivity. }
  all: unfold get_agent, external, ret; rewrite !bind_eq;
    destruct (model_ainvoke env _ _ _); reflexivity.
Qed.

(** A successful [call_model] step returns one assistant message under the
    ["messages"] key and nothing else. *)
Lemma call_model_returns_ai_message env s st u st' :
  _call_model env s st = (inr u, st') ->
  exists c tcs,
    u = {| upd_messages := Some (OneMessage (AIMessage c tcs)); upd_tools := None |}.
Proof.
  unfold _call_model. rewrite bind_eq.
  destruct (_ st) as [[e | []] st1]; [discriminate | ].
  unfold get_agent, external, ret. rewrite !bind_eq.
  destruct (model_ainvoke env _ _ _) as [e | [c tcs]]; [discriminate | ].
  intros H. injection H as <- _. now exists c, tcs.
Qed.

(** C3, with an empty registry: after a complete first pass of the graph
    nothing was bound, and the handle the model was invoked through is the
    original, unbound one. *)
Lemma empty_tool_set_first_pass_binds_nothing :
  fst (run env_no_tools "2+2?" (new_Store base_model 50))
  = inr {| messages := [HumanMessage "2+2?"; AIMessage "4" []]; tools := Some [] |}
  /\ trace (snd (run env_no_tools "2+2?" (new_Store base_model 50)))
     = [EvGraphInvoke (run_input "2+2?"); EvGetTools;
        EvModelInvoke base_model [HumanMessage "2+2?"]]
  /\ model (the_agent (snd (run env_no_tools "2+2?" (new_Store base_model 50))))
     = base_model
  /\ is_unbound (model (the_agent (snd (run env_no_tools "2+2?" (new_Store base_model 50)))))
     = true
  /\ _bound_tools (the_agent (snd (run env_no_tools "2+2?" (new_Store base_model 50))))
     = None.
Proof. repeat split. Qed.

(** C3, amended: with no prior binding, the [call_model] step binds exactly
    when the tool set is non-empty.  Then the handle becomes the bound one,
    the tool set is recorded and a dispatcher is built, and the model is
    invoked through the bound handle.  With an empty or absent tool set
    nothing is bound and the model is invoked through the handle as it
    was. *)
Theorem first_call_model_binds_iff_tools env s st :
  _bound_tools (the_agent st) = None ->
  (forall ts, tools s = Some ts -> ts <> [] ->
     the_agent (snd (_call_model env s st)) = rebound ts (the_agent st)
     /\ is_unbound (model (the_agent (snd (_call_model env s st)))) = false
     /\ trace (snd (_call_model env s st))
        = trace st ++ [EvBindTools ts;
                       EvModelInvoke (bind_tools (model (the_agent st)) ts) (messages s)])
  /\ (truthy_tools (tools s) = false ->
      the_agent (snd (_call_model env s st)) = the_agent st
      /\ trace (snd (_call_model env s st))
         = trace st ++ [EvModelInvoke (model (the_agent st)) (messages s)]).
Proof.
  intros Hnone. split.
  - intros ts Ht Hne.
    rewrite (call_model_rebinds env s st ts Ht Hne) by now rewrite Hnone.
    repeat split.
  - intros Hfalsy. rewrite call_model_keeps_binding; [now split | ].
    intros ts Ht Hne. rewrite Ht in Hfalsy. destruct ts; [congruence | discriminate].
Qed.

Lemma first_call_model_binds_iff_tools_witness :
  the_agent (snd (_call_model env_search state_with_search (new_Store base_model 50)))
  = rebound [search_docs] (new_Agent base_model)
  /\ is_unbound
       (model (the_agent
                 (snd (_call_model env_search state_with_search (new_Store base_model 50)))))
     = false
  /\ trace (snd (_call_model env_search state_with_search (new_Store base_model 50)))
     = [EvBindTools [search_docs];
        EvModelInvoke (bind_tools base_model [search_docs]) [HumanMessage "docs for X"]].
Proof.
  refine (proj1 (first_call_model_binds_iff_tools env_search state_with_search
                   (new_Store base_model 50) eq_refl)
                [search_docs] eq_refl _).
  discriminate.
Defined.

(** C9: when the tool set in the state is the one currently bound, the
    [call_model] step binds nothing: the model handle, the bound tool set
    and the dispatcher are what they were, and the only external call it
    makes is the model invocation through the existing handle. *)
Theorem call_model_same_tools_no_rebind env s st :
  tools s = _bound_tools (the_agent st) ->
  model (the_agent (snd (_call_model env s st))) = model (the_agent st)
  /\ _bound_tools (the_agent (snd (_call_model env s st))) = _bound_tools (the_agent st)
  /\ _tool_node (the_agent (snd (_call_model env s st))) = _tool_node (the_agent st)
  /\ trace (snd (_call_model env s st))
     = trace st ++ [EvModelInvoke (model (the_agent st)) (messages s)].
Proof.
  intros Hsame. rewrite call_model_keeps_binding; [now repeat split | ].
  intros ts Ht _. rewrite <- Hsame, Ht. cbn [bound_tools_differ].
  now rewrite tools_eqb_refl.
Qed.

Lemma call_model_same_tools_no_rebind_witness :
  tools state_with_search = _bound_tools (the_agent after_first_bind)
  /\ model (the_agent (snd (_call_model env_search state_with_search after_first_bind)))
     = bind_tools base_model [search_docs]
  /\ trace (snd (_call_model env_search state_with_search after_first_bind))
     = trace after_first_bind
       ++ [EvModelInvoke (bind_tools base_model [search_docs]) [HumanMessage "docs for X"]].
Proof.
  split; [reflexivity | ].
  pose proof (call_model_same_tools_no_rebind env_search state_with_search
                after_first_bind eq_refl) as (Hmodel & _ & _ & Htrace).
  exact (conj Hmodel Htrace).
Defined.

(** Two [call_model] steps in a row on the same tool set: whatever the
    first one did, the second one binds nothing. *)
Lemma call_model_second_pass env s1 s2 st :
  tools s2 = tools s1 ->
  snd (_call_model env s2 (snd (_call_model env s1 st)))
  = {| the_agent := the_agent (snd (_call_model env s1 st));
       the_chat := the_chat (snd (_call_model env s1 st));
       trace := trace (snd (_call_model env s1 st))
                ++ [EvModelInvoke (model (the_agent (snd (_call_model env s1 st))))
                                  (messages s2)] |}.
Proof.
  intros Heq. apply call_model_keeps_binding.
  intros ts Ht Hne. rewrite Heq in Ht.
  destruct (bound_tools_differ (_bound_tools (the_agent st)) ts) eqn:Hdiff.
  - rewrite (call_model_rebinds env s1 st ts Ht Hne Hdiff).
    cbn [the_agent rebound _bound_tools bound_tools_differ].
    now rewrite tools_eqb_refl.
  - rewrite call_model_keeps_binding; [exact Hdiff | ].
    intros ts' Ht' _. congruence.
Qed.


(** ** Transitions of the graph *)

Lemma last_message_snoc l m t :
  last_message {| messages := l ++ [m]; tools := t |} = Some m.
Proof.
  unfold last_message. cbn [messages].
  destruct l as [ | x l']; cbn [app]; [reflexivity | ].
  f_equal. apply last_last.
Qed.

Lemma should_continue_snoc l m t :
  _should_continue {| messages := l ++ [m]; tools := t |}
  = if has_tool_calls m then Node execute_tools else END.
Proof.
  unfold _should_continue. rewrite last_message_snoc. cbn [messages].
  destruct (l ++ [m]) eqn:Hl; [now destruct l | reflexivity].
Qed.

(** After [call_model]: the router alone decides, the plain edge to [END]
    schedules nothing. *)
Lemma next_active_call_model s :
  next_active agent_flow [call_model] s
  = match _should_continue s with
    | Node execute_tools => [execute_tools]
    | _ => []
    end.
Proof.
  unfold next_active, successors, edge_targets, branch_targets.
  cbn [flat_map agent_flow edges conditional_edges fst snd node_eqb dest_nodes app].
  destruct (_should_continue s) as [[ | | ] | ]; reflexivity.
Qed.

(** C7: after a [call_model] step has appended the model's response, the
    next node is [execute_tools] exactly when that response carries at
    least one tool call; otherwise no node is scheduled and the run returns
    the state.  [call_model] is the only node with a conditional edge: the
    successor of [get_tools] and of [execute_tools] is [call_model]
    whatever the state. *)
Theorem call_model_is_the_sole_branch env s st u st' :
  _call_model env s st = (inr u, st') ->
  (exists c tcs,
      u = {| upd_messages := Some (OneMessage (AIMessage c tcs)); upd_tools := None |}
      /\ messages (apply_update s u) = messages s ++ [AIMessage c tcs]
      /\ (tcs <> [] ->
          next_active agent_flow [call_model] (apply_update s u) = [execute_tools])
      /\ (tcs = [] ->
          next_active agent_flow [call_model] (apply_update s u) = []
          /\ forall fuel st0,
               pregel_loop env fuel agent_flow [] (apply_update s u) st0
               = (inr (apply_update s u), st0)))
  /\ map fst (conditional_edges agent_flow) = [call_model]
  /\ (forall s0, next_active agent_flow [get_tools] s0 = [call_model])
  /\ (forall s0, next_active agent_flow [execute_tools] s0 = [call_model]).
Proof.
  intros Hstep. split; [ | repeat split ].
  destruct (call_model_returns_ai_message env s st u st' Hstep) as (c & tcs & ->).
  exists c, tcs. split; [reflexivity | ].
  split; [reflexivity | ].
  rewrite next_active_call_model.
  unfold apply_update, add_messages. cbn [upd_messages upd_tools as_list].
  rewrite should_continue_snoc.
  split.
  - intros Hne. destruct tcs; [congruence | reflexivity].
  - intros ->. split; [reflexivity | ].
    intros [ | fuel] st0; reflexivity.
Qed.

Lemma call_model_is_the_sole_branch_witness :
  next_active agent_flow [call_model]
    {| messages := [HumanMessage "docs for X"; AIMessage "" [search_call]];
       tools := Some [search_docs] |}
  = [execute_tools].
Proof.
  destruct (call_model_is_the_sole_branch env_search state_with_search
              (new_Store base_model 50)
              {| upd_messages := Some (OneMessage (AIMessage "" [search_call]));
                 upd_tools := None |}
              after_first_bind eq_refl)
    as [(c & tcs & Hu & _ & Hcalls & _) _].
  injection Hu as <- <-.
  apply Hcalls. discriminate.
Defined.

(** C8: entered without a dispatcher, or with a last message that has no
    tool calls (or with no message at all), [execute_tools] returns an
    empty message list and leaves the store as it was, so no tool is
    invoked; merging its result leaves the state unchanged, and the next
    node is [call_model]. *)
Theorem execute_tools_noop env s st :
  _tool_node (the_agent st) = None
  \/ (forall m, last_message s = Some m -> has_tool_calls m = false) ->
  _execute_tools env s st
  = (inr {| upd_messages := Some (MessageList []); upd_tools := None |}, st)
  /\ apply_update s {| upd_messages := Some (MessageList []); upd_tools := None |} = s
  /\ next_active agent_flow [execute_tools] s = [call_model].
Proof.
  intros Hguard. repeat split.
  - unfold _execute_tools. rewrite bind_eq. unfold get_agent. cbv beta iota.
    destruct Hguard as [Hnone | Hnocalls].
    + now rewrite Hnone.
    + destruct (_tool_node (the_agent st)); [ | reflexivity ].
      destruct (last_message s) as [m | ]; [ | reflexivity ].
      now rewrite (Hnocalls m eq_refl).
  - destruct s as [msgs ts]. unfold apply_update, add_messages.
    cbn [upd_messages upd_tools as_list messages tools].
    now rewrite app_nil_r.
Qed.

Lemma execute_tools_noop_witness :
  _execute_tools env_search
    {| messages := [HumanMessage "docs for X"; AIMessage "Here: found" []];
       tools := Some [search_docs] |}
    after_first_bind
  = (inr {| upd_messages := Some (MessageList []); upd_tools := None |}, after_first_bind).
Proof.
  refine (proj1 (execute_tools_noop env_search _ after_first_bind (or_intror _))).
  intros m [= <-]. reflexivity.
Defined.

(** * Further properties of the session and of the agent *)

(** ** Read-outs *)

Lemma fold_history_step h : forall acc,
  fold_left history_step h acc
  = acc ++ map entry_of (filter (fun m => is_human m || is_ai m) h).
Proof.
  induction h as [ | m h IH]; intros acc; cbn [fold_left filter map].
  - now rewrite app_nil_r.
  - rewrite IH. destruct m; cbn [history_step is_human is_ai orb map];
      [ now rewrite <- app_assoc | now rewrite <- app_assoc | reflexivity ].
Qed.

(** X1: [get_chat_history] reports the human and assistant messages of the
    history, each once and in order, tagged [user] or [assistant]; tool
    messages are left out, and the store is not changed. *)
Theorem get_chat_history_spec st :
  get_chat_history st
  = (inr (map entry_of
            (filter (fun m => is_human m || is_ai m) (chat_history (the_chat st)))),
     st).
Proof.
  unfold get_chat_history. rewrite bind_eq. unfold get_chat, ret.
  now rewrite fold_history_step.
Qed.

(** The loop with its early [break] computes what two separate scans
    compute: a variable already set is kept, an unset one takes the first
    message of its class. *)
Lemma exchange_loop_scans msgs : forall last_ai last_user,
  exchange_loop msgs (last_ai, last_user)
  = (or_else last_ai (find is_ai msgs), or_else last_user (find is_human msgs)).
Proof.
  induction msgs as [ | m rest IH]; intros last_ai last_user.
  - now destruct last_ai, last_user.
  - cbn [exchange_loop find].
    destruct m as [c | c tcs | c id], last_ai as [a | ], last_user as [u | ];
      cbn [exchange_step is_ai is_human fst snd or_else option_map content
           truthy_str andb];
      repeat match goal with
      | |- context [negb (?x =? "")] => destruct (negb (x =? ""))
      end;
      cbn [andb]; rewrite ?IH; reflexivity.
Qed.

Lemma get_last_exchange_eq st :
  get_last_exchange st = (inr (last_exchange_of (chat_history (the_chat st))), st).
Proof.
  unfold get_last_exchange, last_exchange_of. rewrite bind_eq. unfold get_chat.
  cbv beta iota.
  destruct (Nat.ltb _ 2); [reflexivity | ].
  rewrite exchange_loop_scans. cbn [or_else fst snd].
  destruct (find is_ai _) as [a | ], (find is_human _) as [u | ];
    cbn [option_map truthy_str]; try reflexivity.
  unfold has_content. destruct (negb (content a =? "") && negb (content u =? ""));
    reflexivity.
Qed.

(** X2: [get_last_exchange] returns [None] on a history of fewer than two
    messages; otherwise it pairs the content of the most recent human
    message with that of the most recent assistant message, wherever they
    stand, and returns [None] when either is missing or empty.  The store
    is not changed. *)
Theorem get_last_exchange_spec st :
  get_last_exchange st = (inr (last_exchange_of (chat_history (the_chat st))), st)
  /\ (length (chat_history (the_chat st)) < 2 -> fst (get_last_exchange st) = inr None).
Proof.
  rewrite get_last_exchange_eq. split; [reflexivity | ].
  intros Hshort. unfold last_exchange_of. cbn [fst].
  now apply Nat.ltb_lt in Hshort as ->.
Qed.

Lemma get_last_exchange_spec_witness :
  fst (get_last_exchange (with_history [HumanMessage "hi"] (new_Store base_model 50)))
  = inr None.
Proof.
  apply (proj2 (get_last_exchange_spec
                  (with_history [HumanMessage "hi"] (new_Store base_model 50)))).
  cbn. lia.
Defined.

(** A history that ends with a human message and an assistant message, both
    with content, reads out as that pair. *)
Lemma last_exchange_of_tail h u a tcs :
  u <> "" -> a <> "" ->
  last_exchange_of (h ++ [HumanMessage u; AIMessage a tcs])
  = Some [("user", u); ("assistant", a)].
Proof.
  intros Hu Ha. unfold last_exchange_of.
  rewrite length_app. cbn [length].
  replace (Nat.ltb (length h + 2) 2) with false
    by (symmetry; apply Nat.ltb_ge; lia).
  rewrite rev_app_distr. cbn [rev app find is_ai is_human].
  unfold has_content. cbn [content].
  apply String.eqb_neq in Hu, Ha. now rewrite Hu, Ha.
Qed.

(** ** Trimming *)

(** X3: with a bound of one or more and a history longer than the bound,
    [_trim_history] keeps exactly the [max_history] most recent messages,
    in order, and touches nothing else in the store. *)
Theorem trim_history_keeps_most_recent st :
  (1 <= max_history (the_chat st))%Z ->
  (max_history (the_chat st) < Z.of_nat (length (chat_history (the_chat st))))%Z ->
  _trim_history st
  = (inr tt,
     with_history
       (skipn (length (chat_history (the_chat st)) - Z.to_nat (max_history (the_chat st)))
              (chat_history (the_chat st)))
       st)
  /\ length (skipn (length (chat_history (the_chat st))
                    - Z.to_nat (max_history (the_chat st)))
                   (chat_history (the_chat st)))
     = Z.to_nat (max_history (the_chat st)).
Proof.
  intros Hpos Hlong. split.
  - rewrite trim_history_eq. now rewrite trimmed_keeps_most_recent.
  - rewrite length_skipn. lia.
Qed.

Lemma trim_history_keeps_most_recent_witness :
  _trim_history crowded_store
  = (inr tt, with_history [HumanMessage "c"; AIMessage "d" []] crowded_store).
Proof.
  refine (proj1 (trim_history_keeps_most_recent crowded_store _ _));
    cbn; lia.
Defined.

(** X4: with a negative [max_history], every call of [_trim_history] drops
    the [- max_history] oldest messages (all of them when there are
    fewer), whatever the length of the history. *)
Theorem trim_history_negative_bound st :
  (max_history (the_chat st) < 0)%Z ->
  _trim_history st
  = (inr tt,
     with_history (skipn (Z.to_nat (- max_history (the_chat st)))
                         (chat_history (the_chat st)))
                  st).
Proof.
  intros Hneg. rewrite trim_history_eq. f_equal. f_equal.
  unfold trimmed, slice_from.
  destruct (Z.gtb_spec (Z.of_nat (length (chat_history (the_chat st))))
                       (max_history (the_chat st))) as [_ | Hle]; [ | lia ].
  destruct (Z.ltb_spec (- max_history (the_chat st)) 0) as [Hlt | _]; [lia | ].
  destruct (Z.le_gt_cases (- max_history (the_chat st))
                          (Z.of_nat (length (chat_history (the_chat st)))))
    as [Hfits | Hover].
  - now rewrite Z.min_l by exact Hfits.
  - rewrite Z.min_r by lia. rewrite Nat2Z.id.
    rewrite skipn_all. symmetry. apply skipn_all2. lia.
Qed.

Lemma trim_history_negative_bound_witness :
  _trim_history negative_bound_store
  = (inr tt, with_history [AIMessage "b" []; HumanMessage "c"] negative_bound_store).
Proof.
  refine (trim_history_negative_bound negative_bound_store _). cbn. lia.
Defined.

(** ** Replies of [send_message] *)

Lemma find_skips {A} (p : A -> bool) l1 l2 :
  (forall y, In y l1 -> p y = false) -> find p (l1 ++ l2) = find p l2.
Proof.
  induction l1 as [ | y l1 IH]; intros Hnone; [reflexivity | ].
  cbn [app find]. rewrite (Hnone y) by now left.
  apply IH. intros z Hz. apply Hnone. now right.
Qed.

Lemma find_nothing {A} (p : A -> bool) l :
  (forall y, In y l -> p y = false) -> find p l = None.
Proof.
  intros Hnone. rewrite <- (app_nil_r l). now rewrite find_skips.
Qed.

(** The last message with content, seen from the end of the sequence. *)
Lemma find_last_with_content before ai after :
  has_content ai = true ->
  (forall m, In m after -> has_content m = false) ->
  find has_content (rev (before ++ ai :: after)) = Some ai.
Proof.
  intros Hai Hafter. rewrite rev_app_distr. cbn [rev]. rewrite <- app_assoc.
  rewrite find_skips.
  - cbn [app find]. now rewrite Hai.
  - intros y Hy. apply Hafter. now apply in_rev.
Qed.

(** X5: when the run returns, the reply is the content of the last message
    of the returned sequence that has content; that message is appended to
    the history after the user message, the history is then trimmed, and
    nothing else of the store changes after the run. *)
Theorem send_message_reply env message st response st1 before ai after :
  run env message (turn_started message st) = (inr response, st1) ->
  messages response = before ++ ai :: after ->
  has_content ai = true ->
  (forall m, In m after -> has_content m = false) ->
  fst (send_message env message st) = inr (content ai)
  /\ chat_history (the_chat (snd (send_message env message st)))
     = trimmed (chat_history (the_chat st) ++ [HumanMessage message; ai])
               (max_history (the_chat st))
  /\ the_agent (snd (send_message env message st)) = the_agent st1
  /\ trace (snd (send_message env message st)) = trace st1.
Proof.
  intros Hrun Hmsgs Hai Hafter.
  pose proof (frames_run env message (turn_started message st)) as [Hchat _].
  rewrite Hrun in Hchat. cbn [snd] in Hchat.
  rewrite send_message_eq, Hrun. unfold send_outcome.
  rewrite Hmsgs, (find_last_with_content before ai after Hai Hafter). cbn [fst snd with_history the_chat the_agent trace
                      set_chat_history chat_history].
  rewrite Hchat. cbn [turn_started the_chat chat_history max_history].
  rewrite <- app_assoc. repeat split.
Qed.

Lemma send_message_reply_witness :
  fst (send_message env_no_tools "2+2?" (new_Store base_model 50)) = inr "4"
  /\ chat_history (the_chat (snd (send_message env_no_tools "2+2?" (new_Store base_model 50))))
     = [HumanMessage "2+2?"; AIMessage "4" []].
Proof.
  pose proof (send_message_reply env_no_tools "2+2?" (new_Store base_model 50)
                {| messages := [HumanMessage "2+2?"; AIMessage "4" []]; tools := Some [] |}
                (snd (run env_no_tools "2+2?"
                        (turn_started "2+2?" (new_Store base_model 50))))
                [HumanMessage "2+2?"] (AIMessage "4" []) []
                eq_refl eq_refl eq_refl (fun m (H : In m []) => match H with end))
    as (Hreply & Hhist & _).
  exact (conj Hreply Hhist).
Defined.

(** X6: when the run returns and no message of the returned sequence has
    content, the reply is the fixed apology text, which is not recorded:
    the history gains the user message only and is not trimmed. *)
Theorem send_message_apology env message st response st1 :
  run env message (turn_started message st) = (inr response, st1) ->
  (forall m, In m (messages response) -> has_content m = false) ->
  fst (send_message env message st) = inr apology
  /\ chat_history (the_chat (snd (send_message env message st)))
     = chat_history (the_chat st) ++ [HumanMessage message]
  /\ the_agent (snd (send_message env message st)) = the_agent st1
  /\ trace (snd (send_message env message st)) = trace st1.
Proof.
  intros Hrun Hnone.
  pose proof (frames_run env message (turn_started message st)) as [Hchat _].
  rewrite Hrun in Hchat. cbn [snd] in Hchat.
  rewrite send_message_eq, Hrun. unfold send_outcome.
  rewrite find_nothing by (intros y Hy; apply Hnone; now apply in_rev).
  cbn [fst snd]. rewrite Hchat. repeat split.
Qed.

Lemma send_message_apology_witness :
  fst (send_message env_silent "" (new_Store base_model 50)) = inr apology
  /\ chat_history (the_chat (snd (send_message env_silent "" (new_Store base_model 50))))
     = [HumanMessage ""].
Proof.
  pose proof (send_message_apology env_silent "" (new_Store base_model 50)
                {| messages := [HumanMessage ""; AIMessage "" []]; tools := Some [] |}
                (snd (run env_silent "" (turn_started "" (new_Store base_model 50))))
                eq_refl) as H.
  destruct H as (Hreply & Hhist & _).
  - intros m [<- | [<- | []]]; reflexivity.
  - exact (conj Hreply Hhist).
Defined.

(** ** A turn in which the model requests no tool *)

Lemma get_tools_returns env s st ts :
  mcp_get_tools env (length (trace st)) = inr ts ->
  _get_tools env s st
  = (inr {| upd_messages := None; upd_tools := Some (Some ts) |},
     {| the_agent := the_agent st; the_chat := the_chat st;
        trace := trace st ++ [EvGetTools] |}).
Proof.
  intros Hok. unfold _get_tools, MCPClient_get_tools, external.
  rewrite bind_eq, Hok. reflexivity.
Qed.

(** What a [call_model] step may log: at most one bind, of the tool set of
    the state, then the model invocation on the messages of the state. *)
Lemma call_model_trace env s st :
  the_chat (snd (_call_model env s st)) = the_chat st
  /\ exists binds,
       trace (snd (_call_model env s st))
       = trace st ++ binds
           ++ [EvModelInvoke (model (the_agent (snd (_call_model env s st))))
                             (messages s)]
       /\ (binds = [] \/ exists ts, tools s = Some ts /\ binds = [EvBindTools ts]).
Proof.
  destruct (tools s) as [[ | t rest] | ] eqn:Ht.
  2: destruct (bound_tools_differ (_bound_tools (the_agent st)) (t :: rest)) eqn:Hdiff.
  2: { rewrite (call_model_rebinds env s st (t :: rest) Ht) by (discriminate || exact Hdiff).
       split; [reflexivity | ]. exists [EvBindTools (t :: rest)].
       split; [reflexivity | right; now exists (t :: rest)]. }
  all: rewrite call_model_keeps_binding;
    [ split; [reflexivity | exists []; split; [reflexivity | now left]]
    | intros ts Hts Hne; congruence ].
Qed.







(** ** Read-outs after a turn *)

(** X9: after a turn whose run raised, [get_last_exchange] pairs the
    user's message (when non-empty) with the error text recorded for it. *)
Theorem last_exchange_after_failed_turn env message st e st1 :
  run env message (turn_started message st) = (inl e, st1) ->
  message <> "" ->
  fst (get_last_exchange (snd (send_message env message st)))
  = inr (Some [("user", message);
               ("assistant", ("Error occurred: " ++ exc_str e)%string)]).
Proof.
  intros Hrun Hm.
  pose proof (frames_run env message (turn_started message st)) as [Hchat _].
  rewrite Hrun in Hchat. cbn [snd] in Hchat.
  rewrite get_last_exchange_eq, send_message_eq, Hrun. unfold send_outcome.
  cbn [fst snd with_history the_chat set_chat_history chat_history].
  rewrite Hchat. cbn [turn_started the_chat chat_history].
  rewrite <- app_assoc. cbn [app].
  rewrite last_exchange_of_tail; [reflexivity | exact Hm | discriminate].
Qed.

Lemma last_exchange_after_failed_turn_witness :
  fst (get_last_exchange
         (snd (send_message env_registry_down "2+2?" (new_Store base_model 50))))
  = inr (Some [("user", "2+2?"); ("assistant", "Error occurred: no server responded")]).
Proof.
  apply (last_exchange_after_failed_turn env_registry_down "2+2?"
           (new_Store base_model 50) registry_unavailable
           (snd (run env_registry_down "2+2?"
                   (turn_started "2+2?" (new_Store base_model 50))))).
  - reflexivity.
  - discriminate.
Defined.

(** ** Relations kept by every step of a run *)

Section StepRelation.

Variable R : Store -> Store -> Prop.
Hypothesis R_refl : forall st, R st st.
Hypothesis R_trans : forall st1 st2 st3, R st1 st2 -> R st2 st3 -> R st1 st3.

Definition steps {A} (c : M A) : Prop := forall st, R st (snd (c st)).

Lemma steps_ret {A} (a : A) : steps (ret a).
Proof. intros st. apply R_refl. Qed.

Lemma steps_raise {A} e : steps (@raise A e).
Proof. intros st. apply R_refl. Qed.

Lemma steps_get_agent : steps get_agent.
Proof. intros st. apply R_refl. Qed.

Lemma steps_bind {A B} (c : M A) (k : A -> M B) :
  steps c -> (forall a, steps (k a)) -> steps (bind c k).
Proof.
  intros Hc Hk st. unfold bind.
  specialize (Hc st). destruct (c st) as [[e | a] st1]; cbn [snd] in *.
  - exact Hc.
  - eapply R_trans; [exact Hc | apply Hk].
Qed.

Lemma steps_try_except {A} (body : M A) handler :
  steps body -> (forall e, steps (handler e)) -> steps (try_except body handler).
Proof.
  intros Hb Hh st. unfold try_except.
  specialize (Hb st). destruct (body st) as [[e | a] st1]; cbn [snd] in *.
  - eapply R_trans; [exact Hb | apply Hh].
  - exact Hb.
Qed.

Variable env : Collaborators.

Hypothesis R_call_model : forall s, steps (_call_model env s).
Hypothesis R_execute_tools : forall s, steps (_execute_tools env s).

(** Once [get_tools] has run, the loop alternates between [call_model] and
    [execute_tools]; a relation both nodes keep is kept by the loop. *)
Lemma steps_loop fuel : forall n s,
  n <> get_tools -> steps (pregel_loop env fuel agent_flow [n] s).
Proof.
  induction fuel as [ | fuel IH]; intros n s Hn st.
  - apply R_refl.
  - rewrite pregel_loop_step.
    assert (Hnode : R st (snd (node_action env n s st))).
    { destruct n; [congruence | apply R_call_model | apply R_execute_tools]. }
    destruct (node_action env n s st) as [[e | u] st1]; cbn [snd] in *; [exact Hnode | ].
    eapply R_trans; [exact Hnode | ].
    destruct n; [congruence | | ].
    + rewrite next_active_call_model.
      destruct (_should_continue (apply_update s u)) as [[ | | ] | ];
        try (destruct fuel; apply R_refl).
      now apply IH.
    + change (next_active agent_flow [execute_tools] (apply_update s u))
        with [call_model].
      now apply IH.
Qed.

End StepRelation.

Lemma later_in_run_refl st : later_in_run st st.
Proof. split; [reflexivity | exists []; split; [now rewrite app_nil_r | constructor]]. Qed.

Lemma later_in_run_trans st1 st2 st3 :
  later_in_run st1 st2 -> later_in_run st2 st3 -> later_in_run st1 st3.
Proof.
  intros [Hc1 (e1 & Ht1 & Hq1)] [Hc2 (e2 & Ht2 & Hq2)]. split; [congruence | ].
  exists (e1 ++ e2). split.
  - rewrite Ht2, Ht1. now rewrite app_assoc.
  - apply Forall_app. now split.
Qed.

Lemma agent_kept_refl st : agent_kept st st.
Proof. split; [reflexivity | apply later_in_run_refl]. Qed.

Lemma agent_kept_trans st1 st2 st3 :
  agent_kept st1 st2 -> agent_kept st2 st3 -> agent_kept st1 st3.
Proof.
  intros [Ha1 Hl1] [Ha2 Hl2]. split; [congruence | ].
  eapply later_in_run_trans; eassumption.
Qed.

Section EngineSteps.

Variable env : Collaborators.

(** Invoking the dispatcher leaves the agent and the session alone and logs
    tool invocations only. *)
Lemma agent_kept_ToolNode_calls node calls :
  steps agent_kept (ToolNode_calls env node calls).
Proof.
  induction calls as [ | c rest IH]; cbn [ToolNode_calls].
  - apply steps_ret, agent_kept_refl.
  - apply steps_bind; [exact agent_kept_trans | | ].
    + unfold ToolNode_call. destruct (lookup_tool _ _).
      * apply steps_try_except; [exact agent_kept_trans | | ].
        -- apply steps_bind; [exact agent_kept_trans | | ].
           ++ intros st. split; [reflexivity | ]. split; [reflexivity | ].
              exists [EvToolInvoke c]. split; [reflexivity | ].
              repeat constructor.
           ++ intros out. apply steps_ret, agent_kept_refl.
        -- intros e. apply steps_ret, agent_kept_refl.
      * apply steps_ret, agent_kept_refl.
    + intros m. apply steps_bind; [exact agent_kept_trans | exact IH | ].
      intros ms. apply steps_ret, agent_kept_refl.
Qed.

Lemma agent_kept_execute_tools s : steps agent_kept (_execute_tools env s).
Proof.
  unfold _execute_tools.
  apply steps_bind; [exact agent_kept_trans | apply steps_get_agent, agent_kept_refl | ].
  intros self.
  destruct (_tool_node self) as [node | ]; [ | apply steps_ret, agent_kept_refl ].
  destruct (last_message s) as [m | ] eqn:Hlast; [ | apply steps_ret, agent_kept_refl ].
  destruct (has_tool_calls m); [ | apply steps_ret, agent_kept_refl ].
  apply steps_bind; [exact agent_kept_trans | | ].
  - unfold ToolNode_ainvoke. rewrite Hlast. apply agent_kept_ToolNode_calls.
  - intros results. apply steps_ret, agent_kept_refl.
Qed.

Lemma later_in_run_execute_tools s : steps later_in_run (_execute_tools env s).
Proof. intros st. apply agent_kept_execute_tools. Qed.

Lemma later_in_run_call_model s : steps later_in_run (_call_model env s).
Proof.
  intros st. destruct (call_model_trace env s st) as (Hchat & binds & Htrace & Hbinds).
  split; [exact Hchat | ].
  eexists. split; [exact Htrace | ].
  apply Forall_app. split.
  - destruct Hbinds as [-> | (ts & _ & ->)]; repeat constructor.
  - repeat constructor.
Qed.

(** X10: a run that gets to start asks the registry exactly once, as the
    first thing it does; whatever follows in the log of the run is a bind,
    a model invocation or a tool invocation, so the tool set is never
    fetched again while the model and the tools take turns. *)
Theorem run_asks_registry_once question st :
  graph_of_build_agent (the_agent st) ->
  0 < recursion_limit env ->
  exists evs,
    trace (snd (run env question st))
    = trace st ++ [EvGraphInvoke (run_input question); EvGetTools] ++ evs
    /\ Forall model_or_tool_event evs.
Proof.
  intros Hg Hfuel. rewrite run_eq by exact Hg.
  destruct (recursion_limit env) as [ | fuel]; [lia | ].
  rewrite pregel_loop_step. cbn [node_action].
  destruct (mcp_get_tools env (length (trace (graph_started question st))))
    as [e | ts] eqn:Hreg.
  - rewrite (get_tools_raises env _ _ e Hreg). cbn [snd trace graph_started].
    exists []. split; [now rewrite <- app_assoc | constructor].
  - rewrite (get_tools_returns env _ _ ts Hreg).
    change (next_active agent_flow [get_tools] _) with [call_model].
    assert (Hn : call_model <> get_tools) by discriminate.
    match goal with
    | |- context [pregel_loop env fuel agent_flow [call_model] ?s ?st1] =>
        destruct (steps_loop later_in_run later_in_run_refl later_in_run_trans env
                    later_in_run_call_model later_in_run_execute_tools
                    fuel call_model s Hn st1)
          as [_ (evs & Htrace & Hevs)]
    end.
    exists evs. split; [ | exact Hevs ].
    rewrite Htrace. cbn [trace graph_started]. rewrite <- !app_assoc. reflexivity.
Qed.

End EngineSteps.

Lemma run_asks_registry_once_witness :
  exists evs,
    trace (snd (run env_search "docs for X" (new_Store base_model 50)))
    = [EvGraphInvoke (run_input "docs for X"); EvGetTools] ++ evs
    /\ Forall model_or_tool_event evs.
Proof.
  apply (run_asks_registry_once env_search "docs for X" (new_Store base_model 50)).
  - left; reflexivity.
  - cbn; lia.
Defined.


(** ** The binding attributes over a whole session *)

Section BindingInvariant.

Variables (env : Collaborators) (original : BaseChatModel).

Let keeps (st st' : Store) : Prop :=
  agent_invariant original st -> agent_invariant original st'.

Lemma keeps_refl st : keeps st st.
Proof. intros H. exact H. Qed.

Lemma keeps_trans st1 st2 st3 : keeps st1 st2 -> keeps st2 st3 -> keeps st1 st3.
Proof. unfold keeps. auto. Qed.

Lemma invariant_same_agent st st' :
  the_agent st' = the_agent st -> keeps st st'.
Proof. intros Heq [Hg Hb]. split; rewrite Heq; assumption. Qed.

Lemma keeps_call_model s : steps keeps (_call_model env s).
Proof.
  intros st. destruct (tools s) as [[ | t rest] | ] eqn:Ht.
  2: destruct (bound_tools_differ (_bound_tools (the_agent st)) (t :: rest)) eqn:Hdiff.
  2: { intros [Hg Hb].
       rewrite (call_model_rebinds env s st (t :: rest) Ht) by (discriminate || exact Hdiff).
       split; cbn [the_agent].
       - exact Hg.
       - right. exists (t :: rest), (model (the_agent st)).
         repeat split. discriminate. }
  all: apply invariant_same_agent; rewrite call_model_keeps_binding;
    [ reflexivity | intros ts Hts Hne; congruence ].
Qed.

Lemma keeps_execute_tools s : steps keeps (_execute_tools env s).
Proof.
  intros st. apply invariant_same_agent. apply agent_kept_execute_tools.
Qed.

Lemma run_keeps_invariant question st :
  agent_invariant original st -> agent_invariant original (snd (run env question st)).
Proof.
  intros Hinv. pose proof Hinv as [Hg Hb]. rewrite run_eq by exact Hg.
  assert (Hstart : agent_invariant original (graph_started question st)).
  { split; cbn [graph_started the_agent].
    - now right.
    - exact Hb. }
  destruct (recursion_limit env) as [ | fuel]; [exact Hstart | ].
  rewrite pregel_loop_step. cbn [node_action].
  destruct (mcp_get_tools env (length (trace (graph_started question st))))
    as [e | ts] eqn:Hreg.
  - rewrite (get_tools_raises env _ _ e Hreg). exact Hstart.
  - rewrite (get_tools_returns env _ _ ts Hreg).
    change (next_active agent_flow [get_tools] _) with [call_model].
    assert (Hn : call_model <> get_tools) by discriminate.
    apply (steps_loop keeps keeps_refl keeps_trans env
             keeps_call_model keeps_execute_tools fuel call_model _ Hn).
    exact Hstart.
Qed.

Lemma send_message_keeps_invariant message st :
  agent_invariant original st ->
  agent_invariant original (snd (send_message env message st)).
Proof.
  intros Hinv. rewrite send_message_eq.
  assert (Hrun : agent_invariant original
                   (snd (run env message (turn_started message st))))
    by (apply run_keeps_invariant; exact Hinv).
  destruct (run env message (turn_started message st)) as [[e | response] st1];
    unfold send_outcome; cbn [snd] in *.
  - exact Hrun.
  - destruct (find has_content (rev (messages response))); exact Hrun.
Qed.

(** X11: in a session started on a fresh agent, after any number of turns
    and whatever the collaborators answered, the binding attributes agree:
    either nothing is bound, there is no dispatcher and the handle is the
    original one, or a non-empty tool set is recorded, the dispatcher is
    the one built from that tool set and the handle is a binding of that
    same tool set.  The graph attribute is unset or the built graph. *)
Theorem session_keeps_binding_consistent max_hist msgs :
  agent_invariant original (send_all env msgs (new_Store original max_hist)).
Proof.
  assert (Hall : forall st, agent_invariant original st ->
                            agent_invariant original (send_all env msgs st)).
  { induction msgs as [ | m rest IH]; intros st Hinv; [exact Hinv | ].
    cbn [send_all fold_left]. apply IH. now apply send_message_keeps_invariant. }
  apply Hall. split; [now left | left; repeat split].
Qed.

End BindingInvariant.

(** ** What a run can see of the session *)

Lemma chat_blind_ret {A} (a : A) : chat_blind (ret a).
Proof. intros chat st. reflexivity. Qed.

Lemma chat_blind_raise {A} e : chat_blind (@raise A e).
Proof. intros chat st. reflexivity. Qed.

Lemma chat_blind_get_agent : chat_blind get_agent.
Proof. intros chat st. reflexivity. Qed.

Lemma chat_blind_modify_agent f : chat_blind (modify_agent f).
Proof. intros chat st. reflexivity. Qed.

Lemma chat_blind_emit ev : chat_blind (emit ev).
Proof. intros chat st. reflexivity. Qed.

Lemma chat_blind_external {A} ev (answer : nat -> PyException + A) :
  chat_blind (external ev answer).
Proof. intros chat st. reflexivity. Qed.

Lemma chat_blind_bind {A B} (c : M A) (k : A -> M B) :
  chat_blind c -> (forall a, chat_blind (k a)) -> chat_blind (bind c k).
Proof.
  intros Hc Hk chat st. unfold bind. rewrite Hc.
  destruct (c st) as [[e | a] st1]; cbn [fst snd]; [reflexivity | apply Hk].
Qed.

Lemma chat_blind_try_except {A} (body : M A) handler :
  chat_blind body -> (forall e, chat_blind (handler e)) ->
  chat_blind (try_except body handler).
Proof.
  intros Hb Hh chat st. unfold try_except. rewrite Hb.
  destruct (body st) as [[e | a] st1]; cbn [fst snd]; [apply Hh | reflexivity].
Qed.

Create HintDb chat_blind.
#[local] Hint Resolve chat_blind_ret chat_blind_raise chat_blind_get_agent
  chat_blind_modify_agent chat_blind_emit chat_blind_external : chat_blind.

Ltac blind_step :=
  first [ apply chat_blind_bind; [ | intros ? ]
        | apply chat_blind_try_except; [ | intros ? ]
        | solve [ auto with chat_blind ] ].

Section EngineBlind.

Variable env : Collaborators.

Lemma chat_blind_get_tools s : chat_blind (_get_tools env s).
Proof. unfold _get_tools, MCPClient_get_tools. repeat blind_step. Qed.

Lemma chat_blind_call_model s : chat_blind (_call_model env s).
Proof.
  unfold _call_model.
  apply chat_blind_bind; [ | intros ?; repeat blind_step ].
  destruct (tools s) as [[ | t rest] | ]; try solve [repeat blind_step].
  apply chat_blind_bind; [ auto with chat_blind | intros self ].
  destruct (bound_tools_differ _ _); repeat blind_step.
Qed.

Lemma chat_blind_ToolNode_calls node calls :
  chat_blind (ToolNode_calls env node calls).
Proof.
  induction calls as [ | c rest IH]; cbn [ToolNode_calls].
  - auto with chat_blind.
  - apply chat_blind_bind.
    + unfold ToolNode_call. destruct (lookup_tool _ _); repeat blind_step.
    + intros m. apply chat_blind_bind; [exact IH | intros ms; auto with chat_blind].
Qed.

Lemma chat_blind_execute_tools s : chat_blind (_execute_tools env s).
Proof.
  unfold _execute_tools.
  apply chat_blind_bind; [ auto with chat_blind | intros self ].
  destruct (_tool_node self) as [node | ]; [ | auto with chat_blind ].
  destruct (last_message s) as [m | ] eqn:Hlast; [ | auto with chat_blind ].
  destruct (has_tool_calls m); [ | auto with chat_blind ].
  apply chat_blind_bind; [ | intros ?; auto with chat_blind ].
  unfold ToolNode_ainvoke. rewrite Hlast. apply chat_blind_ToolNode_calls.
Qed.

Lemma chat_blind_run_nodes active s : chat_blind (run_nodes env active s).
Proof.
  induction active as [ | n rest IH]; cbn [run_nodes].
  - auto with chat_blind.
  - apply chat_blind_bind.
    + destruct n; cbn [node_action];
        [ apply chat_blind_get_tools | apply chat_blind_call_model
        | apply chat_blind_execute_tools ].
    + intros u. apply chat_blind_bind; [exact IH | intros us; auto with chat_blind].
Qed.

Lemma chat_blind_pregel_loop fuel g : forall active s,
  chat_blind (pregel_loop env fuel g active s).
Proof.
  induction fuel as [ | fuel IH]; intros [ | n rest] s; cbn [pregel_loop];
    auto with chat_blind.
  apply chat_blind_bind; [apply chat_blind_run_nodes | intros updates; apply IH].
Qed.

Lemma chat_blind_run question : chat_blind (run env question).
Proof.
  unfold run. apply chat_blind_bind; [auto with chat_blind | intros self].
  apply chat_blind_bind.
  - destruct (agent self); unfold build_agent; repeat blind_step.
  - intros g. unfold ainvoke.
    apply chat_blind_bind; [auto with chat_blind | intros _].
    apply chat_blind_pregel_loop.
Qed.

(** X12: the reply of [send_message], and everything the turn does to the
    agent and to the log of external calls, is the same whatever the
    retained history holds (and whatever [max_history] is): the run never
    reads the session. *)
Theorem reply_ignores_history message st chat :
  fst (send_message env message (with_chat chat st))
  = fst (send_message env message st)
  /\ the_agent (snd (send_message env message (with_chat chat st)))
     = the_agent (snd (send_message env message st))
  /\ trace (snd (send_message env message (with_chat chat st)))
     = trace (snd (send_message env message st)).
Proof.
  rewrite !send_message_eq.
  change (turn_started message (with_chat chat st))
    with (with_chat (the_chat (turn_started message (with_chat chat st)))
                    (turn_started message st)).
  rewrite chat_blind_run.
  destruct (run env message (turn_started message st)) as [[e | response] st1];
    unfold send_outcome; cbn [fst snd].
  - repeat split.
  - destruct (find has_content (rev (messages response))); repeat split.
Qed.

End EngineBlind.

(** ** Binding across turns *)





(** ** The history bound on a replying turn *)

(** X14: with [max_history] of one or more, a turn that ends with a reply
    leaves a history no longer than [max_history], and that history is
    what remains of the old history, the user message and the reply after
    dropping messages from the front only. *)
Theorem replying_turn_fits_bound env message st response st1 ai :
  (1 <= max_history (the_chat st))%Z ->
  run env message (turn_started message st) = (inr response, st1) ->
  find has_content (rev (messages response)) = Some ai ->
  (Z.of_nat (length (chat_history (the_chat (snd (send_message env message st)))))
   <= max_history (the_chat st))%Z
  /\ exists dropped,
       chat_history (the_chat st) ++ [HumanMessage message; ai]
       = dropped ++ chat_history (the_chat (snd (send_message env message st))).
Proof.
  intros Hpos Hrun Hai.
  pose proof (frames_run env message (turn_started message st)) as [Hchat _].
  rewrite Hrun in Hchat. cbn [snd] in Hchat.
  rewrite send_message_eq, Hrun. unfold send_outcome. rewrite Hai.
  cbn [snd with_history the_chat set_chat_history chat_history].
  rewrite Hchat. cbn [turn_started the_chat chat_history max_history].
  rewrite <- app_assoc. cbn [app]. split.
  - now apply trimmed_length.
  - apply trimmed_suffix.
Qed.

Lemma replying_turn_fits_bound_witness :
  (Z.of_nat (length (chat_history
                       (the_chat (snd (send_message env_no_tools "again"
                                         (with_chat {| chat_history := [HumanMessage "hi";
                                                                        AIMessage "4" []];
                                                       max_history := 2;
                                                       _agent_built := true |}
                                                    (new_Store base_model 2)))))))
   <= 2)%Z.
Proof.
  refine (proj1 (replying_turn_fits_bound env_no_tools "again"
                   (with_chat {| chat_history := [HumanMessage "hi"; AIMessage "4" []];
                                 max_history := 2;
                                 _agent_built := true |}
                              (new_Store base_model 2))
                   {| messages := [HumanMessage "again"; AIMessage "4" []];
                      tools := Some [] |}
                   (snd (run env_no_tools "again"
                           (turn_started "again"
                              (with_chat {| chat_history := [HumanMessage "hi";
                                                             AIMessage "4" []];
                                            max_history := 2;
                                            _agent_built := true |}
                                         (new_Store base_model 2)))))
                   (AIMessage "4" []) _ eq_refl eq_refl)).
  cbn. lia.
Defined.
